(** * dune-justin dashboard filter form: a shallow embedding

    The Python modules [modules/components/filterForm.py] and
    [modules/dashboard/utils.py] are embedded as Rocq functions.

    - Python [str] is [string] (ASCII text), [None] is the [None] of an
      [option], a [dict] is a [gmap], a [set] is a [gset].
    - A method that mutates [self] and may raise is a function from the
      object's state to an outcome paired with the state it leaves behind:
      a raised exception does not undo the assignments made before it.
    - An attribute holding a reference to an object stored in a list of the
      same owner (the selected [Option] of a [Select], a field of the form
      found through [field_dict]) is the index of that object in the list.
    - The [render] methods build markup from the state and change nothing;
      they are left out. *)

From Stdlib Require Import ZArith Ascii.
From stdpp Require Import gmap strings list fin_maps sorting.

#[local] Set Warnings "-clear-no-such-hyp".

(** ** Exceptions and the effect of a method *)

Inductive ValueError_info : Type :=
| InvalidDateFormat (new_dt_value date_format : string)
    (* Invalid date format for '{new_dt_value}'. Expected format: {date_format} *)
| FailedToSelect (opt_val : string) (name : option string) (available : list string)
    (* failed to select value '{opt_val}' in Select '{name}'. available: [...] *)
| FieldMustHaveName
    (* Field must have a name to be set in FilterForm. *)
| Msg (text : string).

Inductive exn : Type :=
| ValueError (info : ValueError_info)
| KeyError (key : string)
    (* raised by FilterForm: Field with name '{key}' not found in FilterForm. *)
| TypeError
| AttributeError.

Inductive result (A : Type) : Type :=
| Ok (a : A)
| Raise (e : exn).
Arguments Ok {A} a.
Arguments Raise {A} e.

(** A method on an object with state [S]. *)
Definition M (S A : Type) : Type := S → result A * S.

Global Instance M_ret {S} : MRet (M S) := λ A a s, (Ok a, s).
Global Instance M_bind {S} : MBind (M S) := λ A B k m s,
  match m s with
  | (Ok a, s') => k a s'
  | (Raise e, s') => (Raise e, s')
  end.
Definition raise {S A} (e : exn) : M S A := λ s, (Raise e, s).
Definition get {S} : M S S := λ s, (Ok s, s).
Definition modify {S} (f : S → S) : M S unit := λ s, (Ok tt, f s).
(** [try: m except: h e]: the handler receives the exception; the state
    reached when the exception was raised is kept. *)
Definition try_except {S A} (m : M S A) (h : exn → M S A) : M S A :=
  λ s, match m s with
       | (Ok a, s') => (Ok a, s')
       | (Raise e, s') => h e s'
       end.

(** Pure fallible code: the same exceptions without a state. *)
Global Instance result_ret : MRet result := λ A a, Ok a.
Global Instance result_bind : MBind result := λ A B k m,
  match m with
  | Ok a => k a
  | Raise e => Raise e
  end.

(** ** Strings *)

(** Python truthiness of an optional string argument: [None] and the empty
    string are falsy. *)
Definition truthy (v : option string) : bool :=
  match v with
  | Some s => negb (String.eqb s "")
  | None => false
  end.

(** [str(v)] of a value that is a [str] already. *)
Definition str (v : string) : string := v.

(** [v if v else d] *)
Definition if_else (v : option string) (d : string) : string :=
  match v with
  | Some s => if negb (String.eqb s "") then s else d
  | None => d
  end.
Notation "v 'or_else' d" := (if_else v d) (at level 50, only parsing).

(** Calling a [str] method on a value that may be [None]. *)
Definition str_of (v : option string) : result string :=
  match v with
  | Some s => Ok s
  | None => Raise AttributeError
  end.

(** [s.replace(old, new)] for single characters. *)
Fixpoint replace_char (old new : ascii) (s : string) : string :=
  match s with
  | EmptyString => EmptyString
  | String c s' =>
      String (if Ascii.eqb c old then new else c) (replace_char old new s')
  end.

(** ** [datetime.strptime(s, "%Y-%m-%d")]

    The library call is modelled on ASCII text after CPython's [_strptime]:
    the format compiles to the regular expression
    [(\d\d\d\d)-(1[0-2]|0[1-9]|[1-9])-(3[0-1]|[1-2]\d|0[1-9]|[1-9]| [1-9])],
    the whole string must be consumed, and the date must exist (the year is
    at least 1, the day is within the month). *)

Definition is_digit (c : ascii) : bool :=
  (48 <=? nat_of_ascii c)%nat && (nat_of_ascii c <=? 57)%nat.
Definition digit (c : ascii) : nat := nat_of_ascii c - 48.
Definition in_range (lo hi : nat) (c : ascii) : bool :=
  is_digit c && (lo <=? digit c)%nat && (digit c <=? hi)%nat.

Definition parse_Y (y1 y2 y3 y4 : ascii) : option nat :=
  if is_digit y1 && is_digit y2 && is_digit y3 && is_digit y4
  then Some (1000 * digit y1 + 100 * digit y2 + 10 * digit y3 + digit y4)
  else None.

(** The month directive together with the [-] that follows it. *)
Definition parse_m (rest : list ascii) : option (nat * list ascii) :=
  match rest with
  | m1 :: m2 :: "-"%char :: d =>
      if (Ascii.eqb m1 "1" && in_range 0 2 m2) || (Ascii.eqb m1 "0" && in_range 1 9 m2)
      then Some (10 * digit m1 + digit m2, d)
      else None
  | m1 :: "-"%char :: d => if in_range 1 9 m1 then Some (digit m1, d) else None
  | _ => None
  end.

(** The day directive, which must end the string. *)
Definition parse_d (rest : list ascii) : option nat :=
  match rest with
  | [d1; d2] =>
      if (Ascii.eqb d1 "3" && in_range 0 1 d2)
         || (in_range 1 2 d1 && is_digit d2)
         || (Ascii.eqb d1 "0" && in_range 1 9 d2)
      then Some (10 * digit d1 + digit d2)
      else if Ascii.eqb d1 " " && in_range 1 9 d2 then Some (digit d2)
      else None
  | [d1] => if in_range 1 9 d1 then Some (digit d1) else None
  | _ => None
  end.

Definition is_leap (y : nat) : bool :=
  (y mod 4 =? 0)%nat && (negb (y mod 100 =? 0)%nat || (y mod 400 =? 0)%nat).

Definition days_in_month (y m : nat) : nat :=
  match m with
  | 2 => if is_leap y then 29 else 28
  | 4 | 6 | 9 | 11 => 30
  | _ => 31
  end.

Definition strptime (s : string) : option (nat * nat * nat) :=
  match String.list_ascii_of_string s with
  | y1 :: y2 :: y3 :: y4 :: "-"%char :: rest =>
      y ← parse_Y y1 y2 y3 y4;
      '(m, rest') ← parse_m rest;
      d ← parse_d rest';
      if (1 <=? y)%nat && (d <=? days_in_month y m)%nat then Some (y, m, d) else None
  | _ => None
  end.

(** [true] when the call returns, [false] when it raises. *)
Definition strptime_ok (s : string) : bool :=
  if strptime s is Some _ then true else false.

(** ** Option *)

Definition default_value : string := "ANY".

Record Option : Type := mkOption {
  opt_value : string;
  is_selected : bool;
}.

(** ** DateSelector *)

Definition date_format : string := "%Y-%m-%d".

Record DateSelector : Type := mkDateSelector {
  ds_name : option string;
  ds_label_name : string;
  ds_value : string;  (* self._value *)
}.

(** [DateSelector.__init__]; [today] is what
    [dt.today().strftime(self.date_format)] returns when the constructor
    runs.  A falsy [label_name] is derived from [name], which fails on
    [None]. *)
Definition DateSelector_init (name : option string) (label_name : option string)
    (value : option string) (today : string) : result DateSelector :=
  let _value := value or_else today in
  match label_name with
  | Some l =>
      if negb (String.eqb l "")
      then Ok (mkDateSelector name l _value)
      else n ← str_of name; Ok (mkDateSelector name (replace_char "_" " " n) _value)
  | None => n ← str_of name; Ok (mkDateSelector name (replace_char "_" " " n) _value)
  end.

Definition DateSelector_value (self : DateSelector) : string := ds_value self.

Definition DateSelector_set_value (new_dt_value : option string) : M DateSelector unit :=
  match new_dt_value with
  | None => mret tt
  | Some v =>
      if strptime_ok v
      then modify (λ self : DateSelector, mkDateSelector (ds_name self) (ds_label_name self) v)
      else raise (ValueError (InvalidDateFormat v date_format))
  end.

(** ** Select *)

Record Select : Type := mkSelect {
  sel_name : option string;
  sel_label_name : string;
  sel_options : list Option;   (* self._options *)
  sel_value : option nat;      (* self._value: the selected Option, by position *)
}.

Definition unselect (o : Option) : Option := mkOption (opt_value o) false.
Definition select (o : Option) : Option := mkOption (opt_value o) true.

Definition Select_reset : M Select unit :=
  modify (λ self : Select,
    mkSelect (sel_name self) (sel_label_name self) (unselect <$> sel_options self) None).

Definition Select_value (self : Select) : option string :=
  match sel_value self with
  | Some i => opt_value <$> sel_options self !! i
  | None => None
  end.

(** The [for option in self.options] loop of the setter, at the [i]-th
    option with [rest] still to visit. *)
Fixpoint Select_scan (opt_val : string) (i : nat) (rest : list Option) : M Select unit :=
  match rest with
  | [] =>
      self ← get;
      raise (ValueError (FailedToSelect opt_val (sel_name self)
                           (opt_value <$> sel_options self)))
  | option :: rest' =>
      if String.eqb (str (opt_value option)) (str opt_val)
      then modify (λ self : Select,
             mkSelect (sel_name self) (sel_label_name self)
                      (alter select i (sel_options self)) (Some i))
      else Select_scan opt_val (S i) rest'
  end.

Definition Select_set_value (opt_val : option string) : M Select unit :=
  match opt_val with
  | None => mret tt
  | Some v =>
      Select_reset;;
      self ← get;
      Select_scan v 0 (sel_options self)
  end.

Definition Select_rename (new_label_name : string) (new_name : option string)
    : M Select unit :=
  modify (λ self : Select,
    mkSelect new_name new_label_name (sel_options self) (sel_value self)).

(** [Select.__init__]: the object exists only if the body does not raise. *)
Definition Select_init (name : option string) (label_name : string)
    (options : list string) (value : option string) : result Select :=
  let options' := (λ o, mkOption o false) <$> options in
  let default_option := mkOption default_value false in
  let self := mkSelect name label_name (default_option :: options') None in
  match (Select_reset;;
         Select_set_value (Some (value or_else opt_value default_option))) self with
  | (Ok _, self') => Ok self'
  | (Raise e, _) => Raise e
  end.

(** ** FilterForm *)

Inductive FormField : Type :=
| DateField (d : DateSelector)
| SelectField (s : Select).

Definition FormField_name (f : FormField) : option string :=
  match f with
  | DateField d => ds_name d
  | SelectField s => sel_name s
  end.

Definition FormField_value (f : FormField) : option string :=
  match f with
  | DateField d => Some (DateSelector_value d)
  | SelectField s => Select_value s
  end.

Definition FormField_set_value (new_value : option string) : M FormField unit :=
  λ f, match f with
       | DateField d =>
           let '(r, d') := DateSelector_set_value new_value d in (r, DateField d')
       | SelectField s =>
           let '(r, s') := Select_set_value new_value s in (r, SelectField s')
       end.

Record FilterForm : Type := mkFilterForm {
  fields : list FormField;   (* self._fields *)
  action : string;
  cgi_method : string;
  request_method : string;
}.

Definition with_fields (fs : list FormField) (self : FilterForm) : FilterForm :=
  mkFilterForm fs (action self) (cgi_method self) (request_method self).

Definition enumerate {A} (l : list A) : list (nat * A) := imap pair l.

(** [{ field.name : field for field in self._fields }]: a later field
    overwrites an earlier one of the same name.  The dictionary holds the
    field objects of the list themselves, here their positions. *)
Definition field_dict (self : FilterForm) : gmap (option string) nat :=
  foldl (λ d '(i, field), <[FormField_name field := i]> d) ∅ (enumerate (fields self)).

Definition get_field (field_name : string) : M FilterForm nat :=
  self ← get;
  match field_dict self !! Some field_name with
  | None => raise (KeyError field_name)
  | Some f => mret f
  end.

(** Run a method of the field object at position [f].  [field_dict] only
    holds positions of the list ([field_dict_Some] below), so the last
    branch is never reached through [get_field]. *)
Definition on_field {A} (f : nat) (m : M FormField A) : M FilterForm A :=
  λ self, match fields self !! f with
          | Some field =>
              let '(r, field') := m field in (r, with_fields (<[f := field']> (fields self)) self)
          | None => (Raise AttributeError, self)
          end.

Definition setitem (field_name : string) (field_value : option string) : M FilterForm unit :=
  f ← get_field field_name;
  on_field f (FormField_set_value field_value).

Definition getitem (field_name : string) : M FilterForm (option string) :=
  f ← get_field field_name;
  on_field f (field ← get; mret (FormField_value field)).

Fixpoint update (field_values : list (string * option string))
    (is_ignore_unknown_fields : bool) : M FilterForm unit :=
  match field_values with
  | [] => mret tt
  | (field_name, field_value) :: rest =>
      try_except (setitem field_name field_value)
        (λ e, match e with
              | KeyError _ =>
                  if negb is_ignore_unknown_fields
                  then raise (KeyError field_name)
                  else mret tt
              | _ => raise e
              end);;
      update rest is_ignore_unknown_fields
  end.

(** The [for i, f in enumerate(self.fields)] loop of [set_field]. *)
Fixpoint set_field_scan (field : FormField) (name : string) (i : nat)
    (rest : list FormField) : M FilterForm unit :=
  match rest with
  | [] => raise (KeyError name)
  | f :: rest' =>
      if bool_decide (FormField_name f = FormField_name field)
      then modify (λ self : FilterForm, with_fields (<[i := field]> (fields self)) self)
      else set_field_scan field name (S i) rest'
  end.

Definition set_field (field : FormField) : M FilterForm unit :=
  match FormField_name field with
  | None => raise (ValueError FieldMustHaveName)
  | Some name =>
      self ← get;
      set_field_scan field name 0 (fields self)
  end.

(** ** Row and parameter utilities ([modules/dashboard/utils.py]) *)

(** The values of a result-set cell: [None], an [int] or a [str]. *)
Inductive pyval : Type :=
| PyNone
| PyInt (n : Z)
| PyStr (s : string).

Global Instance pyval_eq_dec : EqDecision pyval.
Proof. solve_decision. Defined.

Global Instance pyval_countable : Countable pyval.
Proof.
  refine (inj_countable'
    (λ v, match v with
          | PyNone => inl ()
          | PyInt n => inr (inl n)
          | PyStr s => inr (inr s)
          end)
    (λ x, match x with
          | inl _ => PyNone
          | inr (inl n) => PyInt n
          | inr (inr s) => PyStr s
          end) _).
  by intros [].
Defined.

Global Instance PyInt_inj : Inj (=) (=) PyInt.
Proof. by intros ?? [=]. Qed.
Global Instance PyStr_inj : Inj (=) (=) PyStr.
Proof. by intros ?? [=]. Qed.

(** An argument on which the code runs an [isinstance] test: either it is
    not of the expected class, or it is and carries its content. *)
Inductive pyobj (A : Type) : Type :=
| NotInstance
| Instance (a : A).
Arguments NotInstance {A}.
Arguments Instance {A} a.

(** A [for] loop whose body may raise. *)
Fixpoint for_each {A B} (body : B → A → result B) (acc : B) (l : list A) : result B :=
  match l with
  | [] => Ok acc
  | x :: l' => acc' ← body acc x; for_each body acc' l'
  end.

(** [d[k]] *)
Definition dict_getitem {V} (d : gmap string V) (k : string) : result V :=
  match d !! k with
  | Some v => Ok v
  | None => Raise (KeyError k)
  end.

Definition as_int (v : pyval) : option Z := if v is PyInt n then Some n else None.
Definition as_str (v : pyval) : option string := if v is PyStr s then Some s else None.

(** The builtin [sorted]: integers compare with integers and strings with
    strings (by code point); a list of fewer than two elements needs no
    comparison; any other list makes a comparison raise [TypeError]. *)
Definition sorted (l : list pyval) : result (list pyval) :=
  match mapM as_int l with
  | Some ns => Ok (PyInt <$> merge_sort Z.le ns)
  | None =>
      match mapM as_str l with
      | Some ss => Ok (PyStr <$> merge_sort String.le ss)
      | None => if bool_decide (length l ≤ 1) then Ok l else Raise TypeError
      end
  end.

(** [x < y] where Python defines it. *)
Definition py_lt (x y : pyval) : Prop :=
  match x, y with
  | PyInt a, PyInt b => (a < b)%Z
  | PyStr s, PyStr t => String.le s t ∧ s ≠ t
  | _, _ => False
  end.

(** [unique_values[k].add(x)] on a [defaultdict(set)]. *)
Definition defaultdict_add (k : string) (x : pyval) (unique_values : gmap string (gset pyval))
    : gmap string (gset pyval) :=
  <[k := default ∅ (unique_values !! k) ∪ {[x]}]> unique_values.

(** The body of [for row in rows]. *)
Definition extract_row (first : gmap string pyval)
    (unique_values : gmap string (gset pyval)) (row : pyobj (gmap string pyval))
    : result (gmap string (gset pyval)) :=
  match row with
  | NotInstance =>
      Raise (ValueError (Msg "All rows must be dictionaries with the same keys"))
  | Instance r =>
      if bool_decide (dom r ≠ dom first)
      then Raise (ValueError (Msg "All rows must be dictionaries with the same keys"))
      else for_each (λ uv k, x ← dict_getitem r k; Ok (defaultdict_add k x uv))
                    unique_values (elements (dom first))
  end.

(** [{k: f(v) for k, v in d.items()}] *)
Definition dict_comprehension {A B} (f : A → result B) (d : gmap string A)
    : result (gmap string B) :=
  for_each (λ acc '(k, v), b ← f v; Ok (<[k := b]> acc)) ∅ (map_to_list d).

Definition extract_rows_unique_value (rows : pyobj (list (pyobj (gmap string pyval))))
    : result (gmap string (list pyval)) :=
  match rows with
  | NotInstance => Raise (ValueError (Msg "Expected a list of dictionaries"))
  | Instance [] => Ok ∅
  | Instance (NotInstance :: _) => Raise (ValueError (Msg "Expected a list of dictionaries"))
  | Instance ((Instance first :: _) as rows) =>
      unique_values ← for_each (extract_row first) ∅ rows;
      dict_comprehension
        (λ v, sorted (filter (λ x, x ≠ PyNone) (elements v))) unique_values
  end.

(** The body of [for key in keys]; [cgiValues.get(key)] is None, which is
    falsy, when the key is missing. *)
Definition parse_cgi_entry (cgiValues : gmap string string) (default_value : string)
    (result : gmap string (option string)) (key : string)
    : gmap string (option string) :=
  match cgiValues !! key with
  | Some value =>
      if negb (String.eqb value "") && negb (String.eqb value default_value)
      then <[key := Some (str value)]> result
      else <[key := None]> result
  | None => <[key := None]> result
  end.

Definition parse_cgi_value (cgiValues : pyobj (gmap string string))
    (keys : pyobj (list string)) (default_value : string)
    : result (gmap string (option string)) :=
  match cgiValues with
  | NotInstance => Raise (ValueError (Msg "Expected a dictionary for cgiValues"))
  | Instance cgiValues =>
      match keys with
      | NotInstance => Raise (ValueError (Msg "Expected a list for keys"))
      | Instance keys => Ok (foldl (parse_cgi_entry cgiValues default_value) ∅ keys)
      end
  end.

(** ** Vocabulary of the specification *)

(** A stored date is valid when it is the construction default or parses. *)
Definition DateSelector_valid (today : string) (self : DateSelector) : Prop :=
  DateSelector_value self = today ∨ strptime_ok (DateSelector_value self) = true.

Definition unselected (o : Option) : Prop := is_selected o = false.

(** Number of options whose flag is set. *)
Definition selected_count (self : Select) : nat :=
  length (filter (λ o, is_selected o = true) (sel_options self)).

(** The operations a client runs on a constructed [Select]. *)
Inductive Select_op : Type :=
| OpSetValue (opt_val : option string)
| OpReset
| OpRename (new_label_name : string) (new_name : option string).

Definition Select_run (op : Select_op) : M Select unit :=
  match op with
  | OpSetValue v => Select_set_value v
  | OpReset => Select_reset
  | OpRename l n => Select_rename l n
  end.

(** The states a [Select] goes through: the one its constructor returns,
    and the one any operation leaves behind, whether it returns or raises. *)
Inductive Select_reachable : Select → Prop :=
| reachable_init name label_name options value self :
    Select_init name label_name options value = Ok self →
    Select_reachable self
| reachable_step op self :
    Select_reachable self →
    Select_reachable (Select_run op self).2.

(** The selected reference and the flags agree. *)
Definition Select_inv (self : Select) : Prop :=
  match sel_value self with
  | Some i =>
      (∃ o, sel_options self !! i = Some o ∧ is_selected o = true) ∧
      ∀ j o, j ≠ i → sel_options self !! j = Some o → unselected o
  | None => Forall unselected (sel_options self)
  end.

(** A field of the form carries the name [k]. *)
Definition names_field (self : FilterForm) (k : string) : Prop :=
  ∃ f, f ∈ fields self ∧ FormField_name f = Some k.

(** What [parse_cgi_value] is to map a key to. *)
Definition normalized (cgiValues : gmap string string) (default_value : string)
    (key : string) : option string :=
  match cgiValues !! key with
  | Some v => if decide (v ≠ "" ∧ v ≠ default_value) then Some v else None
  | None => None
  end.

(** The cells found under key [k], row by row. *)
Definition column (rows : list (gmap string pyval)) (k : string) : list pyval :=
  omap (λ r, r !! k) rows.

Definition not_str (x : pyval) : bool := if x is PyStr _ then false else true.
Definition not_int (x : pyval) : bool := if x is PyInt _ then false else true.

(** Apart from None, the values are of one type, so that any two of them
    compare. *)
Definition comparable (l : list pyval) : bool :=
  forallb not_str l || forallb not_int l.

(** ** Rendering *)

(** [f"{v}"] of a value that is a [str] or [None]. *)
Definition fstr (v : option string) : string := default "None" v.

Definition Label_render (content : string) : string :=
  "<label>" +:+ content +:+ "</label>".

Definition Option_render (self : Option) : string :=
  let option_html :=
    if is_selected self
    then "<option value='" +:+ opt_value self +:+ "' selected>" +:+ opt_value self
         +:+ "</option>"
    else "<option value='" +:+ opt_value self +:+ "'>" +:+ opt_value self
         +:+ "</option>" in
  if String.eqb (opt_value self) default_value
  then option_html +:+ "<option disabled>---</option>"
  else option_html.

Definition dquote : string := String (ascii_of_nat 34) EmptyString.

(** The script that turns the inputs of class date-selector into pickers. *)
Definition flatpickr_js : string :=
  "<script>flatpickr(" +:+ dquote +:+ ".date-selector" +:+ dquote +:+ ", {dateFormat: "
  +:+ dquote +:+ "Y-m-d" +:+ dquote +:+ "});</script>".

Definition DateSelector_render (self : DateSelector) : string :=
  ("<input class='date-selector'type='date' name='" +:+ fstr (ds_name self)
   +:+ "' value='" +:+ DateSelector_value self +:+ "' id='datepicker'>")
  +:+ flatpickr_js.

Definition Select_render (self : Select) : string :=
  let select_html := "<select name='" +:+ fstr (sel_name self) +:+ "'>" in
  let select_html :=
    foldl (λ select_html option, select_html +:+ Option_render option)
          select_html (sel_options self) in
  select_html +:+ "</select>".

Definition FormField_render (f : FormField) : string :=
  match f with
  | DateField d => DateSelector_render d
  | SelectField s => Select_render s
  end.

Definition FormField_label_name (f : FormField) : string :=
  match f with
  | DateField d => ds_label_name d
  | SelectField s => sel_label_name s
  end.

Definition render_submit_button : string :=
  "<input type='submit' value='Filter' style='background: #E1703D; border-radius: 5px; padding: 5px; color: white; font-weight: bold; font-size: 1em; border: 0; cursor: pointer'>".

Definition FilterForm_render (self : FilterForm) : string :=
  let form_html :=
    "<form action='" +:+ action self +:+ "' method='" +:+ request_method self +:+ "'>" in
  let form_html :=
    form_html +:+ ("<input type='hidden' name='method' value='" +:+ cgi_method self
                   +:+ "'>") in
  let form_html :=
    foldl (λ form_html field,
             let field_html := FormField_render field in
             form_html +:+ Label_render (FormField_label_name field +:+ ": "
                                         +:+ field_html))
          form_html (fields self) in
  let form_html := form_html +:+ render_submit_button in
  form_html +:+ "</form>".

(** The strings of a list, joined in order. *)
Definition concat_strings (l : list string) : string := foldr String.append "" l.

(** The markup of a field of the form inside its label. *)
Definition labelled (field : FormField) : string :=
  Label_render (FormField_label_name field +:+ ": " +:+ FormField_render field).

(** ** Sequences of calls *)

(** The state after running the operations one after the other, each from
    the state the previous one left, whether it returned or raised. *)
Definition Select_run_all (ops : list Select_op) (self : Select) : Select :=
  foldl (λ s op, (Select_run op s).2) self ops.

Definition DateSelector_assign_all (values : list (option string))
    (self : DateSelector) : DateSelector :=
  foldl (λ d v, (DateSelector_set_value v d).2) self values.

(** The names of the fields, in order. *)
Definition field_names (self : FilterForm) : list (option string) :=
  FormField_name <$> fields self.

(** * Properties *)

Example strptime_examples :
  strptime "2024-02-29" = Some (2024, 2, 29) ∧
  strptime "2023-02-29" = None ∧
  strptime "2023-1-5" = Some (2023, 1, 5) ∧
  strptime "2023-01- 5" = Some (2023, 1, 5) ∧
  strptime "2023-01-15 " = None ∧
  strptime "0000-01-01" = None ∧
  strptime "garbage" = None ∧
  strptime "" = None.
Proof. vm_compute. done. Qed.

(** ** DateSelector *)

Section DateSelector_properties.
Variable self : DateSelector.

Lemma DateSelector_set_value_None :
  DateSelector_set_value None self = (Ok tt, self).
Proof. reflexivity. Qed.

Lemma DateSelector_set_value_parsed s :
  strptime_ok s = true →
  DateSelector_set_value (Some s) self
  = (Ok tt, mkDateSelector (ds_name self) (ds_label_name self) s).
Proof. intros Hs. unfold DateSelector_set_value. by rewrite Hs. Qed.

Lemma DateSelector_set_value_rejected s :
  strptime_ok s = false →
  DateSelector_set_value (Some s) self
  = (Raise (ValueError (InvalidDateFormat s date_format)), self).
Proof. intros Hs. unfold DateSelector_set_value. by rewrite Hs. Qed.

(** The setter keeps a valid stored date valid, whatever it is given and
    whether it returns or raises. *)
Lemma DateSelector_set_value_valid today v :
  DateSelector_valid today self →
  DateSelector_valid today (DateSelector_set_value v self).2.
Proof.
  intros Hvalid. destruct v as [s|]; [|done].
  destruct (strptime_ok s) eqn:Hs.
  - rewrite DateSelector_set_value_parsed by done. by right.
  - by rewrite DateSelector_set_value_rejected.
Qed.
End DateSelector_properties.

(** A constructor call without a value (or with the empty string) stores
    today's date. *)
Lemma DateSelector_init_default name label_name value today self :
  truthy value = false →
  DateSelector_init name label_name value today = Ok self →
  DateSelector_value self = today.
Proof.
  intros Hv. unfold DateSelector_init.
  assert (value or_else today = today) as ->.
  { destruct value as [s|]; simpl in *; [|done]. by destruct (String.eqb s ""). }
  destruct label_name as [l|], name as [n|]; simpl;
    try destruct (negb (String.eqb l "")); simpl; intros; by simplify_eq.
Qed.

(** Constructed without a value, or with one that parses, the object starts
    valid; by [DateSelector_set_value_valid] it then stays so. *)
Lemma DateSelector_init_valid name label_name value today self :
  truthy value = false ∨ (∃ s, value = Some s ∧ strptime_ok s = true) →
  DateSelector_init name label_name value today = Ok self →
  DateSelector_valid today self.
Proof.
  intros [Hfalsy|(s & -> & Hs)] Hinit.
  - left. by eapply DateSelector_init_default.
  - right. revert Hinit. unfold DateSelector_init.
    assert (Some s or_else today = s) as ->.
    { simpl. destruct (String.eqb_spec s "") as [->|]; [|done]. by vm_compute in Hs. }
    destruct label_name as [l|], name as [n|]; simpl;
      try destruct (negb (String.eqb l "")); simpl; intros; by simplify_eq.
Qed.

(** C1 (evaluated on the code): [DateSelector("start_date", "Start",
    "garbage")] constructed on 2026-11-03 returns an object whose stored
    value is the string "garbage": the constructor stores an explicit value
    without parsing it, so the stored value is neither today's date nor a
    string that parses under %Y-%m-%d. *)
Theorem DateSelector_init_stores_unparsed_value :
  ∃ self,
    DateSelector_init (Some "start_date") (Some "Start") (Some "garbage") "2026-11-03"
      = Ok self ∧
    DateSelector_value self = "garbage" ∧
    strptime_ok (DateSelector_value self) = false ∧
    ¬ DateSelector_valid "2026-11-03" self.
Proof.
  eexists. split; [reflexivity|]. split; [reflexivity|]. split; [reflexivity|].
  intros [H|H]; vm_compute in H; discriminate.
Qed.

(** C5: for every string [s] that parses under %Y-%m-%d, setting the value
    of any DateSelector to [s] returns normally and reading the value
    afterwards gives exactly [s]; name and label are untouched. *)
Theorem DateSelector_set_then_get (self : DateSelector) (s : string) :
  strptime_ok s = true →
  ∃ self',
    DateSelector_set_value (Some s) self = (Ok tt, self') ∧
    DateSelector_value self' = s ∧
    ds_name self' = ds_name self ∧ ds_label_name self' = ds_label_name self.
Proof.
  intros Hs. eexists. split; [by apply DateSelector_set_value_parsed|]. done.
Qed.

Lemma DateSelector_set_then_get_witness :
  ∃ self',
    DateSelector_set_value (Some "2024-02-29")
      (mkDateSelector (Some "start_date") "start date" "2026-11-03") = (Ok tt, self') ∧
    DateSelector_value self' = "2024-02-29" ∧
    ds_name self' = Some "start_date" ∧ ds_label_name self' = "start date".
Proof.
  apply (DateSelector_set_then_get
           (mkDateSelector (Some "start_date") "start date" "2026-11-03") "2024-02-29").
  reflexivity.
Defined.

(** C6: for every DateSelector and every string that does not parse under
    %Y-%m-%d, the setter raises ValueError (carrying the offending string and
    the expected format) and leaves the object, hence the stored value, as it
    was. *)
Theorem DateSelector_set_invalid (self : DateSelector) (s : string) :
  strptime_ok s = false →
  ∃ self',
    DateSelector_set_value (Some s) self
      = (Raise (ValueError (InvalidDateFormat s date_format)), self') ∧
    self' = self ∧
    DateSelector_value self' = DateSelector_value self.
Proof.
  intros Hs. exists self. by rewrite DateSelector_set_value_rejected.
Qed.

Lemma DateSelector_set_invalid_witness :
  ∃ self',
    DateSelector_set_value (Some "03/11/2026")
      (mkDateSelector (Some "start_date") "start date" "2026-11-03")
      = (Raise (ValueError (InvalidDateFormat "03/11/2026" "%Y-%m-%d")), self') ∧
    self' = mkDateSelector (Some "start_date") "start date" "2026-11-03" ∧
    DateSelector_value self' = "2026-11-03".
Proof.
  apply (DateSelector_set_invalid
           (mkDateSelector (Some "start_date") "start date" "2026-11-03") "03/11/2026").
  reflexivity.
Defined.

(** ** Select *)

Section Select_properties.
Implicit Types (self : Select) (l : list Option) (v : string).

Lemma unselect_unselected l : Forall unselected (unselect <$> l).
Proof. apply Forall_fmap, Forall_true. done. Qed.

Lemma Select_reset_eq self :
  Select_reset self
  = (Ok tt, mkSelect (sel_name self) (sel_label_name self)
                     (unselect <$> sel_options self) None).
Proof. reflexivity. Qed.

(** The scan stops at the first option carrying the value. *)
Lemma Select_scan_find v i rest self :
  Select_scan v i rest self =
  match list_find (λ o, opt_value o = v) rest with
  | Some (j, _) =>
      (Ok tt, mkSelect (sel_name self) (sel_label_name self)
                       (alter select (i + j) (sel_options self)) (Some (i + j)))
  | None =>
      (Raise (ValueError (FailedToSelect v (sel_name self)
                            (opt_value <$> sel_options self))), self)
  end.
Proof.
  revert i. induction rest as [|o rest IH]; intros i; [done|].
  cbn [Select_scan list_find]. unfold str.
  destruct (String.eqb_spec (opt_value o) v) as [Heq|Hne].
  - rewrite decide_True by done. by rewrite Nat.add_0_r.
  - rewrite decide_False by done. rewrite IH.
    destruct (list_find _ rest) as [[j o']|]; simpl; [|done].
    by rewrite Nat.add_succ_r.
Qed.

Lemma Select_set_value_find v self :
  Select_set_value (Some v) self =
  match list_find (λ o, opt_value o = v) (sel_options self) with
  | Some (j, _) =>
      (Ok tt, mkSelect (sel_name self) (sel_label_name self)
                       (alter select j (unselect <$> sel_options self)) (Some j))
  | None =>
      (Raise (ValueError (FailedToSelect v (sel_name self)
                            (opt_value <$> sel_options self))),
       mkSelect (sel_name self) (sel_label_name self)
                (unselect <$> sel_options self) None)
  end.
Proof.
  change (Select_set_value (Some v) self) with
    (Select_scan v 0 (unselect <$> sel_options self)
       (mkSelect (sel_name self) (sel_label_name self)
                 (unselect <$> sel_options self) None)).
  rewrite Select_scan_find, list_find_fmap. cbn [sel_name sel_label_name sel_options].
  destruct (list_find _ (sel_options self)) as [[j o]|] eqn:Hfind; simpl; [done|].
  rewrite <-list_fmap_compose. done.
Qed.

Lemma alter_select_inv l j o :
  Forall unselected l → l !! j = Some o →
  Select_inv (mkSelect None "" (alter select j l) (Some j)).
Proof.
  intros Hl Hj. split; simpl.
  - exists (select o). by rewrite list_lookup_alter_eq, Hj.
  - intros k o' Hk. rewrite list_lookup_alter_ne by done.
    intros Ho'. eapply Forall_lookup_1 in Hl; eauto.
Qed.

Lemma Select_inv_irrel n1 (lab1 : string) n2 (lab2 : string) opts val :
  Select_inv (mkSelect n1 lab1 opts val) → Select_inv (mkSelect n2 lab2 opts val).
Proof. done. Qed.

(** Every operation establishes the invariant, from any state. *)
Lemma Select_reset_inv self : Select_inv (Select_reset self).2.
Proof. apply unselect_unselected. Qed.

Lemma Select_set_value_inv opt_val self :
  Select_inv self → Select_inv (Select_set_value opt_val self).2.
Proof.
  intros Hinv. destruct opt_val as [v|]; [|done].
  rewrite Select_set_value_find.
  destruct (list_find _ _) as [[j o]|] eqn:Hfind; simpl.
  - apply list_find_Some in Hfind as (Hj & _ & _).
    eapply Select_inv_irrel, (alter_select_inv _ _ (unselect o)).
    + apply unselect_unselected.
    + by rewrite list_lookup_fmap, Hj.
  - apply unselect_unselected.
Qed.

Lemma Select_rename_inv (lab : string) n self :
  Select_inv self → Select_inv (Select_rename lab n self).2.
Proof. done. Qed.

Lemma Select_init_inv name label_name options value self :
  Select_init name label_name options value = Ok self → Select_inv self.
Proof.
  unfold Select_init. intros Hinit.
  match type of Hinit with
  | match ?m ?s0 with _ => _ end = _ =>
      change (m s0) with (Select_set_value (Some (value or_else default_value))
                            (Select_reset s0).2) in Hinit;
      pose proof (Select_set_value_inv (Some (value or_else default_value))
                    (Select_reset s0).2 (Select_reset_inv s0)) as Hinv
  end.
  destruct (Select_set_value _ _) as [[[]|e] self']; by simplify_eq.
Qed.

Lemma Select_reachable_inv self : Select_reachable self → Select_inv self.
Proof.
  induction 1 as [name label_name options value self Hinit|op self _ IH].
  - by eapply Select_init_inv.
  - destruct op; simpl.
    + by apply Select_set_value_inv.
    + apply Select_reset_inv.
    + by apply Select_rename_inv.
Qed.

Lemma filter_unselected l :
  Forall unselected l → filter (λ o, is_selected o = true) l = [].
Proof.
  induction 1 as [|o l Ho _ IH]; [done|].
  rewrite filter_cons_False; [done|]. unfold unselected in Ho. congruence.
Qed.

(** When all options but the one at position [i] are unselected, at most
    one flag is set. *)
Lemma filter_selected_le_1 l i :
  (∀ j o, j ≠ i → l !! j = Some o → unselected o) →
  length (filter (λ o, is_selected o = true) l) ≤ 1.
Proof.
  revert i. induction l as [|o l IH]; intros i Hothers; [simpl; lia|].
  destruct i as [|i].
  - rewrite filter_cons, filter_unselected.
    + case_decide; simpl; lia.
    + apply Forall_lookup. intros j o' Hj. by apply (Hothers (S j) o').
  - rewrite filter_cons_False.
    + apply (IH i). intros j o' Hne Hj. apply (Hothers (S j) o'); [lia|done].
    + specialize (Hothers 0 o ltac:(lia) eq_refl). unfold unselected in *.
      congruence.
Qed.

Lemma Select_inv_count self : Select_inv self → selected_count self ≤ 1.
Proof.
  unfold Select_inv, selected_count. destruct (sel_value self) as [i|].
  - intros [_ Hothers]. by eapply filter_selected_le_1.
  - intros Hall. apply (filter_selected_le_1 _ 0).
    intros j o _ Hj. by eapply Forall_lookup_1 in Hall.
Qed.

Lemma Select_inv_value_selected self i o :
  Select_inv self → sel_options self !! i = Some o → is_selected o = true →
  sel_value self = Some i ∧ Select_value self = Some (opt_value o).
Proof.
  unfold Select_inv, Select_value. destruct (sel_value self) as [i'|].
  - intros [_ Hothers] Hi Hsel. destruct (decide (i = i')) as [->|Hne].
    + by rewrite Hi.
    + specialize (Hothers i o Hne Hi). unfold unselected in *. congruence.
  - intros Hall Hi Hsel. eapply Forall_lookup_1 in Hall; [|done].
    unfold unselected in *. congruence.
Qed.

Lemma Select_inv_value_None self :
  Select_inv self → Forall unselected (sel_options self) → Select_value self = None.
Proof.
  unfold Select_inv, Select_value. destruct (sel_value self) as [i|]; [|done].
  intros [(o & Hi & Hsel) _] Hall. eapply Forall_lookup_1 in Hall; [|done].
  unfold unselected in *. congruence.
Qed.
End Select_properties.

(** C2: for every Select and every string [v] carried by none of its
    options, the setter raises ValueError (naming [v] and the available
    values); afterwards every option is unselected and the getter returns
    None, whatever was selected before.  The option values are untouched. *)
Theorem Select_set_value_not_found (self : Select) (v : string) :
  (∀ o, o ∈ sel_options self → opt_value o ≠ v) →
  ∃ self',
    Select_set_value (Some v) self
      = (Raise (ValueError (FailedToSelect v (sel_name self)
                              (opt_value <$> sel_options self))), self') ∧
    Forall unselected (sel_options self') ∧
    Select_value self' = None ∧
    opt_value <$> sel_options self' = opt_value <$> sel_options self.
Proof.
  intros Hnone. rewrite Select_set_value_find.
  assert (list_find (λ o, opt_value o = v) (sel_options self) = None) as ->.
  { apply list_find_None, Forall_forall. exact Hnone. }
  eexists. split; [done|]. simpl. split; [apply unselect_unselected|].
  split; [done|]. by rewrite <-list_fmap_compose.
Qed.

Lemma Select_set_value_not_found_witness :
  ∃ self',
    Select_set_value (Some "z")
      (mkSelect (Some "site") "Site"
         [mkOption "ANY" false; mkOption "a" true; mkOption "b" false] (Some 1))
      = (Raise (ValueError (FailedToSelect "z" (Some "site") ["ANY"; "a"; "b"])), self') ∧
    Forall unselected (sel_options self') ∧
    Select_value self' = None ∧
    opt_value <$> sel_options self' = ["ANY"; "a"; "b"].
Proof.
  apply (Select_set_value_not_found
           (mkSelect (Some "site") "Site"
              [mkOption "ANY" false; mkOption "a" true; mkOption "b" false] (Some 1)) "z").
  intros o Ho. simpl in Ho. set_unfold in Ho.
  destruct Ho as [->|[->|[->|[]]]]; simpl; discriminate.
Defined.

(** C4: in every state a Select goes through (after construction and after
    any sequence of value assignments, resets and renames, failed
    assignments included) at most one option has its flag set; the getter
    returns the value of an option whose flag is set, and None when no flag
    is set. *)
Theorem Select_single_selection (self : Select) :
  Select_reachable self →
  selected_count self ≤ 1 ∧
  (∀ o, o ∈ sel_options self → is_selected o = true →
        Select_value self = Some (opt_value o)) ∧
  ((∀ o, o ∈ sel_options self → is_selected o = false) →
   Select_value self = None).
Proof.
  intros Hinv%Select_reachable_inv. split; [by apply Select_inv_count|]. split.
  - intros o [i Hi]%list_elem_of_lookup Hsel.
    by eapply Select_inv_value_selected.
  - intros Hall. apply Select_inv_value_None; [done|]. by apply Forall_forall.
Qed.

Lemma Select_single_selection_witness :
  let self :=
    (Select_run (OpSetValue (Some "b"))
       (Select_run (OpRename "Place" (Some "place"))
          (mkSelect (Some "site") "Site"
             [mkOption "ANY" true; mkOption "a" false; mkOption "b" false] (Some 0))).2).2 in
  self = mkSelect (Some "place") "Place"
           [mkOption "ANY" false; mkOption "a" false; mkOption "b" true] (Some 2) ∧
  selected_count self ≤ 1 ∧
  (∀ o, o ∈ sel_options self → is_selected o = true →
        Select_value self = Some (opt_value o)) ∧
  ((∀ o, o ∈ sel_options self → is_selected o = false) →
   Select_value self = None).
Proof.
  intros self. split; [reflexivity|].
  apply (Select_single_selection self).
  do 2 apply reachable_step.
  apply (reachable_init (Some "site") "Site" ["a"; "b"] None). reflexivity.
Defined.

(** C10 as stated fails on the code: with the empty string among the
    options, [Select("site", "Site", ["", "a"], "")] selects the sentinel,
    and assigning the empty string afterwards returns normally and selects
    the empty-string option instead of raising. *)
Lemma Select_empty_string_option_is_selectable :
  ∃ self self',
    Select_init (Some "site") "Site" [""; "a"] (Some "") = Ok self ∧
    Select_value self = Some "ANY" ∧
    Select_set_value (Some "") self = (Ok tt, self') ∧
    Select_value self' = Some "".
Proof. do 2 eexists. repeat split; reflexivity. Qed.

(** C10 (amended): constructing a Select with a falsy value argument (None
    or the empty string) never fails and selects the sentinel option "ANY"
    at the head of the list, all given options being unselected; assigning
    the empty string afterwards raises ValueError provided the empty string
    is not one of the given options; when it is one of them, the assignment
    returns normally and selects the first option that is the empty string,
    and no other: the getter then returns the empty string. *)
Theorem Select_init_falsy_value (name : option string) (label_name : string)
    (options : list string) (value : option string) :
  truthy value = false →
  ∃ self,
    Select_init name label_name options value = Ok self ∧
    self = mkSelect name label_name
             (mkOption default_value true :: ((λ o, mkOption o false) <$> options))
             (Some 0) ∧
    Select_value self = Some default_value ∧
    ("" ∉ options →
     ∃ self', Select_set_value (Some "") self
              = (Raise (ValueError (FailedToSelect "" name (default_value :: options))),
                 self')) ∧
    ("" ∈ options →
     ∃ i self',
       options !! i = Some "" ∧
       (∀ j, j < i → options !! j ≠ Some "") ∧
       Select_set_value (Some "") self = (Ok tt, self') ∧
       self' = mkSelect name label_name
                 (alter select (S i)
                    ((λ o, mkOption o false) <$> default_value :: options))
                 (Some (S i)) ∧
       sel_options self' !! S i = Some (mkOption "" true) ∧
       (∀ j o, sel_options self' !! j = Some o → is_selected o = true → j = S i) ∧
       Select_value self' = Some "").
Proof.
  intros Hfalsy.
  assert (value or_else default_value = default_value) as Hv.
  { destruct value as [s|]; simpl in *; [|done]. by destruct (String.eqb s ""). }
  assert (unselect <$> ((λ o, mkOption o false) <$> options)
          = (λ o, mkOption o false) <$> options) as Hun.
  { rewrite <-list_fmap_compose. done. }
  eexists. split; [|split; [reflexivity|split; [reflexivity|split]]].
  - unfold Select_init. simpl opt_value. rewrite Hv.
    unfold mbind, M_bind. rewrite Select_reset_eq, Select_set_value_find. simpl.
    change (list_fmap Option Option unselect) with (fmap (M:=list) unselect).
    by rewrite !Hun.
  - intros Hnotin. eexists. rewrite Select_set_value_find.
    assert (list_find (λ o, opt_value o = "")
              (sel_options (mkSelect name label_name
                 (mkOption default_value true :: ((λ o, mkOption o false) <$> options))
                 (Some 0))) = None) as ->.
    { apply list_find_None. simpl. constructor; [done|].
      apply Forall_fmap, Forall_forall. intros o Ho. simpl. by intros ->. }
    simpl. rewrite <-list_fmap_compose.
    replace (opt_value ∘ (λ o, mkOption o false)) with (@id string) by done.
    by rewrite list_fmap_id.
  - intros Hin.
    destruct (list_find_elem_of (λ x, x = "") options "" Hin eq_refl) as [[i x] Hfind].
    apply list_find_Some in Hfind as (Hi & -> & Hfirst).
    assert (((λ o, mkOption o false) <$> default_value :: options) !! S i
            = Some (mkOption "" false)) as Hlookup.
    { rewrite fmap_cons. simpl. by rewrite list_lookup_fmap, Hi. }
    exists i. eexists. split; [done|]. split.
    { intros j Hlt Hj. by apply (Hfirst j ""). }
    split; [|split; [reflexivity|]].
    + rewrite Select_set_value_find.
      assert (list_find (λ o, opt_value o = "")
                (sel_options (mkSelect name label_name
                   (mkOption default_value true :: ((λ o, mkOption o false) <$> options))
                   (Some 0))) = Some (S i, mkOption "" false)) as ->.
      { apply list_find_Some. simpl. rewrite list_lookup_fmap, Hi.
        split; [done|]. split; [done|]. intros [|j] y Hy Hlt.
        - injection Hy as <-. done.
        - simpl in Hy. rewrite list_lookup_fmap in Hy.
          destruct (options !! j) as [z|] eqn:Hz; [|done]. injection Hy as <-.
          simpl. apply (Hfirst j z Hz). lia. }
      cbn [sel_name sel_label_name sel_options]. rewrite fmap_cons, Hun. done.
    + cbn [sel_options]. split; [|split].
      * by rewrite list_lookup_alter_eq, Hlookup.
      * intros j o Hj Hsel. destruct (decide (j = S i)) as [|Hne]; [done|].
        rewrite list_lookup_alter_ne in Hj by done.
        rewrite list_lookup_fmap in Hj.
        destruct ((default_value :: options) !! j) as [z|]; [|done].
        injection Hj as <-. done.
      * unfold Select_value. cbn [sel_value sel_options].
        by rewrite list_lookup_alter_eq, Hlookup.
Qed.

Lemma Select_init_falsy_value_witness :
  (∃ self,
    Select_init (Some "site") "Site" ["a"; "b"] (Some "") = Ok self ∧
    self = mkSelect (Some "site") "Site"
             [mkOption "ANY" true; mkOption "a" false; mkOption "b" false] (Some 0) ∧
    Select_value self = Some "ANY" ∧
    ∃ self', Select_set_value (Some "") self
             = (Raise (ValueError (FailedToSelect "" (Some "site") ["ANY"; "a"; "b"])),
                self')) ∧
  (∃ self i self',
    Select_init (Some "site") "Site" ["a"; ""; ""] None = Ok self ∧
    Select_value self = Some "ANY" ∧
    ["a"; ""; ""] !! i = Some "" ∧
    Select_set_value (Some "") self = (Ok tt, self') ∧
    sel_options self' !! S i = Some (mkOption "" true) ∧
    Select_value self' = Some "").
Proof.
  split.
  - destruct (Select_init_falsy_value (Some "site") "Site" ["a"; "b"] (Some "") eq_refl)
      as (self & Hinit & Hself & Hvalue & Hset & _).
    exists self. repeat split; [done..|]. apply Hset.
    apply (bool_decide_unpack _). reflexivity.
  - destruct (Select_init_falsy_value (Some "site") "Site" ["a"; ""; ""] None eq_refl)
      as (self & Hinit & _ & Hvalue & _ & Hset).
    destruct Hset as (i & self' & Hi & _ & Hset & _ & Hflag & _ & Hget).
    { apply (bool_decide_unpack _). reflexivity. }
    by exists self, i, self'.
Defined.

(** ** FilterForm *)

Section FilterForm_properties.
Implicit Types (self : FilterForm) (l : list FormField) (f field : FormField).

Lemma enumerate_snoc {A} (l : list A) (x : A) :
  enumerate (l ++ [x]) = enumerate l ++ [(length l, x)].
Proof.
  unfold enumerate. rewrite imap_app. simpl. by rewrite Nat.add_0_r.
Qed.

Lemma field_dict_snoc l f a c r :
  field_dict (mkFilterForm (l ++ [f]) a c r)
  = <[FormField_name f := length l]> (field_dict (mkFilterForm l a c r)).
Proof.
  unfold field_dict. simpl. by rewrite enumerate_snoc, foldl_app.
Qed.

(** What the dictionary holds under a name is the last field of that
    name. *)
Lemma field_dict_Some l a c r n i :
  field_dict (mkFilterForm l a c r) !! n = Some i →
  ∃ f, l !! i = Some f ∧ FormField_name f = n ∧
       ∀ j f', i < j → l !! j = Some f' → FormField_name f' ≠ n.
Proof.
  revert i. induction l as [|f l IH] using rev_ind; intros i; [done|].
  rewrite field_dict_snoc.
  destruct (decide (FormField_name f = n)) as [<-|Hne].
  - rewrite lookup_insert_eq. intros [= <-]. exists f.
    split; [by rewrite list_lookup_middle|]. split; [done|].
    intros j f' Hlt Hj. apply lookup_lt_Some in Hj.
    rewrite length_app in Hj. simpl in Hj. lia.
  - rewrite lookup_insert_ne by done. intros (f0 & Hi & Hn & Hlast)%IH.
    exists f0. split; [by apply lookup_app_l_Some|]. split; [done|].
    intros j f' Hlt Hj. apply lookup_app_Some in Hj as [Hj|[Hge Hj]].
    + by eapply Hlast.
    + apply list_lookup_singleton_Some in Hj as [_ <-]. done.
Qed.

Lemma field_dict_None l a c r n :
  field_dict (mkFilterForm l a c r) !! n = None ↔
  ∀ f, f ∈ l → FormField_name f ≠ n.
Proof.
  induction l as [|f l IH] using rev_ind.
  - split; [|done]. intros _ f Hf. by apply elem_of_nil in Hf.
  - rewrite field_dict_snoc, lookup_insert_None, IH. split.
    + intros [Hl Hf] f' [Hin|Hin]%elem_of_app; [by apply Hl|].
      apply list_elem_of_singleton in Hin as ->. done.
    + intros Hall. split.
      * intros f' Hin. apply Hall, elem_of_app. by left.
      * apply Hall, elem_of_app. right. by apply list_elem_of_singleton.
Qed.

Lemma field_dict_unknown self k :
  ¬ names_field self k → field_dict self !! Some k = None.
Proof.
  destruct self as [l a c r]. intros Hunknown. apply field_dict_None.
  intros f Hf Hname. apply Hunknown. by exists f.
Qed.

Lemma field_dict_known self k :
  names_field self k →
  ∃ i f, field_dict self !! Some k = Some i ∧ fields self !! i = Some f ∧
         FormField_name f = Some k.
Proof.
  destruct self as [l a c r]. intros (f & Hf & Hname).
  destruct (field_dict (mkFilterForm l a c r) !! Some k) as [i|] eqn:Hd.
  - apply field_dict_Some in Hd as (f0 & Hi & Hn & _). by exists i, f0.
  - rewrite field_dict_None in Hd. by destruct (Hd f Hf).
Qed.

(** The field setters raise nothing but ValueError. *)
Lemma FormField_set_value_raises v f e f' :
  FormField_set_value v f = (Raise e, f') → ∃ info, e = ValueError info.
Proof.
  destruct f as [d|s]; simpl.
  - destruct v as [x|]; [|done]. unfold DateSelector_set_value.
    destruct (strptime_ok x); [done|]. intros [= <- _]. eauto.
  - destruct v as [x|]; [|done]. rewrite Select_set_value_find.
    destruct (list_find _ _) as [[j o]|]; [done|]. intros [= <- _]. eauto.
Qed.

Lemma setitem_unknown self k v :
  ¬ names_field self k → setitem k v self = (Raise (KeyError k), self).
Proof.
  intros Hd%field_dict_unknown. unfold setitem, get_field, mbind, M_bind, get.
  by rewrite Hd.
Qed.

(** Assigning through a known name runs the setter of the field found
    under that name and leaves the other fields alone. *)
Lemma setitem_known self k v :
  names_field self k →
  ∃ i f, fields self !! i = Some f ∧ FormField_name f = Some k ∧
         setitem k v self
         = ((FormField_set_value v f).1,
            with_fields (<[i := (FormField_set_value v f).2]> (fields self)) self).
Proof.
  intros (i & f & Hd & Hi & Hname)%field_dict_known. exists i, f.
  split; [done|]. split; [done|].
  unfold setitem, get_field, mbind, M_bind, get. rewrite Hd. simpl.
  unfold on_field. rewrite Hi. by destruct (FormField_set_value v f).
Qed.

Lemma setitem_raises self k v e self' :
  names_field self k → setitem k v self = (Raise e, self') →
  ∃ info, e = ValueError info.
Proof.
  intros (i & f & _ & _ & ->)%(setitem_known _ _ v).
  destruct (FormField_set_value v f) as [[]] eqn:Hset; simpl; [done|].
  intros [= <- _]. by eapply FormField_set_value_raises.
Qed.

Lemma update_cons_known self k v rest ignore :
  names_field self k →
  update ((k, v) :: rest) ignore self =
  match setitem k v self with
  | (Ok _, self') => update rest ignore self'
  | (Raise e, self') => (Raise e, self')
  end.
Proof.
  intros Hk. cbn [update]. unfold mbind, M_bind, try_except.
  destruct (setitem k v self) as [[[]|e] self'] eqn:Hset; [done|].
  destruct (setitem_raises _ _ _ _ _ Hk Hset) as [info ->]. done.
Qed.

Lemma update_cons_unknown_ignored self k v rest :
  ¬ names_field self k → update ((k, v) :: rest) true self = update rest true self.
Proof.
  intros Hk. cbn [update]. unfold mbind, M_bind, try_except.
  by rewrite setitem_unknown.
Qed.

Lemma update_cons_unknown_strict self k v rest :
  ¬ names_field self k →
  update ((k, v) :: rest) false self = (Raise (KeyError k), self).
Proof.
  intros Hk. cbn [update]. unfold mbind, M_bind, try_except.
  by rewrite setitem_unknown.
Qed.

Lemma update_all_unknown self field_values :
  (∀ kv, kv ∈ field_values → ¬ names_field self kv.1) →
  update field_values true self = (Ok tt, self).
Proof.
  induction field_values as [|[k v] rest IH]; intros Hall; [done|].
  rewrite update_cons_unknown_ignored.
  - apply IH. intros kv Hin. apply Hall. by right.
  - apply (Hall (k, v)). by left.
Qed.
End FilterForm_properties.

(** C3: [update] applies [self[field_name] = field_value] to the pairs in
    order: a pair whose key names a field runs that assignment and, unless it
    raises, the update goes on with the remaining pairs from the state
    reached; a pair whose key names no field is skipped with the form
    unchanged when unknown fields are ignored, and raises KeyError naming
    that key, with the form unchanged, when they are not.  An update all of
    whose keys are unknown, ignored, returns normally and changes nothing. *)
Theorem update_in_order (self : FilterForm) (is_ignore_unknown_fields : bool) :
  update [] is_ignore_unknown_fields self = (Ok tt, self) ∧
  (∀ k v rest, names_field self k →
     update ((k, v) :: rest) is_ignore_unknown_fields self =
     match setitem k v self with
     | (Ok _, self') => update rest is_ignore_unknown_fields self'
     | (Raise e, self') => (Raise e, self')
     end) ∧
  (∀ k v rest, ¬ names_field self k →
     update ((k, v) :: rest) true self = update rest true self ∧
     update ((k, v) :: rest) false self = (Raise (KeyError k), self)) ∧
  (∀ field_values,
     (∀ kv, kv ∈ field_values → ¬ names_field self kv.1) →
     update field_values true self = (Ok tt, self)).
Proof.
  split; [done|]. split; [|split].
  - intros k v rest Hk. by apply update_cons_known.
  - intros k v rest Hk. split.
    + by apply update_cons_unknown_ignored.
    + by apply update_cons_unknown_strict.
  - apply update_all_unknown.
Qed.

Lemma update_in_order_witness :
  let date := mkDateSelector (Some "start_date") "start date" "2026-11-03" in
  let site options selected := mkSelect (Some "site") "Site" options selected in
  let form fs := mkFilterForm fs "/dashboard/" "list-jobs" "GET" in
  let self :=
    form [DateField date;
          SelectField (site [mkOption "ANY" true; mkOption "a" false] (Some 0))] in
  update [("unknown_field", Some "x")] true self = (Ok tt, self) ∧
  update [("unknown_field", Some "x")] false self
    = (Raise (KeyError "unknown_field"), self) ∧
  update [("site", Some "a"); ("unknown_field", Some "x")] true self
    = (Ok tt, form [DateField date;
                    SelectField (site [mkOption "ANY" false; mkOption "a" true] (Some 1))]).
Proof.
  intros date site form self.
  destruct (update_in_order self true) as (_ & Hknown & Hunknown & _).
  assert (¬ names_field self "unknown_field") as Hnot.
  { intros (f & Hf & Hname). simpl in Hf.
    apply elem_of_cons in Hf as [->|Hf]; [discriminate|].
    apply elem_of_cons in Hf as [->|Hf]; [discriminate|].
    by apply elem_of_nil in Hf. }
  assert (names_field self "site") as Hsite.
  { eexists. split; [simpl; right; left|reflexivity]. }
  split; [|split].
  - by destruct (Hunknown "unknown_field" (Some "x") [] Hnot) as [-> _].
  - by destruct (Hunknown "unknown_field" (Some "x") [] Hnot) as [_ ->].
  - rewrite (Hknown "site" (Some "a") [("unknown_field", Some "x")] Hsite).
    reflexivity.
Defined.

Section set_field_properties.
Implicit Types (self : FilterForm) (l : list FormField) (f field : FormField).

Lemma set_field_scan_find field name i rest self :
  set_field_scan field name i rest self =
  match list_find (λ f, FormField_name f = FormField_name field) rest with
  | Some (j, _) => (Ok tt, with_fields (<[i + j := field]> (fields self)) self)
  | None => (Raise (KeyError name), self)
  end.
Proof.
  revert i. induction rest as [|f rest IH]; intros i; [done|].
  cbn [set_field_scan list_find]. case_bool_decide as Hname.
  - rewrite decide_True by done. by rewrite Nat.add_0_r.
  - rewrite decide_False by done. rewrite IH.
    destruct (list_find _ rest) as [[j f']|]; simpl; [|done].
    by rewrite Nat.add_succ_r.
Qed.

Lemma set_field_nameless field self :
  FormField_name field = None →
  set_field field self = (Raise (ValueError FieldMustHaveName), self).
Proof. intros Hname. unfold set_field. by rewrite Hname. Qed.

Lemma set_field_unknown field name self :
  FormField_name field = Some name → ¬ names_field self name →
  set_field field self = (Raise (KeyError name), self).
Proof.
  intros Hname Hunknown. unfold set_field. rewrite Hname.
  unfold mbind, M_bind, get. rewrite set_field_scan_find, Hname.
  assert (list_find (λ f, FormField_name f = Some name) (fields self) = None) as ->;
    [|done].
  apply list_find_None, Forall_forall. intros f Hf Hn. apply Hunknown. by exists f.
Qed.

Lemma set_field_known field name self :
  FormField_name field = Some name → names_field self name →
  ∃ i f,
    fields self !! i = Some f ∧ FormField_name f = Some name ∧
    (∀ j f', j < i → fields self !! j = Some f' → FormField_name f' ≠ Some name) ∧
    set_field field self = (Ok tt, with_fields (<[i := field]> (fields self)) self).
Proof.
  intros Hname (f0 & Hin & Hf0). unfold set_field. rewrite Hname.
  unfold mbind, M_bind, get. rewrite set_field_scan_find, Hname.
  destruct (list_find (λ f, FormField_name f = Some name) (fields self))
    as [[i f]|] eqn:Hfind.
  - apply list_find_Some in Hfind as (Hi & Hn & Hfirst).
    exists i, f. repeat split; try done.
    intros j f' Hlt Hj. by eapply Hfirst.
  - apply list_find_None in Hfind. rewrite Forall_forall in Hfind.
    by destruct (Hfind f0 Hin).
Qed.
End set_field_properties.

(** C9: [set_field] raises ValueError, leaving the form alone, when the
    given field has no name; raises KeyError naming the field, leaving the
    form alone (nothing is inserted), when no field of the form carries that
    name; and otherwise returns normally having put the given field at the
    position of the (first) field of that name: the list keeps its length,
    every other position holds the field it held, and the other attributes
    of the form are unchanged. *)
Theorem set_field_replaces_in_place (self : FilterForm) (field : FormField) :
  (FormField_name field = None →
   set_field field self = (Raise (ValueError FieldMustHaveName), self)) ∧
  (∀ name, FormField_name field = Some name → ¬ names_field self name →
   set_field field self = (Raise (KeyError name), self)) ∧
  (∀ name, FormField_name field = Some name → names_field self name →
   ∃ i f self',
     set_field field self = (Ok tt, self') ∧
     fields self !! i = Some f ∧ FormField_name f = Some name ∧
     (∀ j f', j < i → fields self !! j = Some f' → FormField_name f' ≠ Some name) ∧
     fields self' !! i = Some field ∧
     length (fields self') = length (fields self) ∧
     (∀ j, j ≠ i → fields self' !! j = fields self !! j) ∧
     action self' = action self ∧ cgi_method self' = cgi_method self ∧
     request_method self' = request_method self).
Proof.
  split; [apply set_field_nameless|]. split; [intros name; apply set_field_unknown|].
  intros name Hname Hknown.
  destruct (set_field_known _ _ _ Hname Hknown) as (i & f & Hi & Hf & Hfirst & ->).
  exists i, f. eexists. split; [done|]. simpl.
  repeat split; try done.
  - apply list_lookup_insert_eq. by eapply lookup_lt_Some.
  - apply length_insert.
  - intros j Hne. by apply list_lookup_insert_ne.
Qed.

Lemma set_field_replaces_in_place_witness :
  let date value := DateField (mkDateSelector (Some "start_date") "start date" value) in
  let site := SelectField (mkSelect (Some "site") "Site" [mkOption "ANY" true] (Some 0)) in
  let form fs := mkFilterForm fs "/dashboard/" "list-jobs" "GET" in
  set_field (DateField (mkDateSelector None "start date" "2024-02-29"))
    (form [site; date "2026-11-03"])
    = (Raise (ValueError FieldMustHaveName), form [site; date "2026-11-03"]) ∧
  set_field (date "2024-02-29") (form [site])
    = (Raise (KeyError "start_date"), form [site]) ∧
  ∃ i f self',
    set_field (date "2024-02-29") (form [site; date "2026-11-03"]) = (Ok tt, self') ∧
    [site; date "2026-11-03"] !! i = Some f ∧ FormField_name f = Some "start_date" ∧
    (∀ j f', j < i → [site; date "2026-11-03"] !! j = Some f' →
             FormField_name f' ≠ Some "start_date") ∧
    fields self' !! i = Some (date "2024-02-29") ∧
    length (fields self') = 2 ∧
    (∀ j, j ≠ i → fields self' !! j = [site; date "2026-11-03"] !! j) ∧
    action self' = "/dashboard/" ∧ cgi_method self' = "list-jobs" ∧
    request_method self' = "GET".
Proof.
  intros date site form. split; [|split].
  - by apply (set_field_replaces_in_place (form [site; date "2026-11-03"])).
  - apply (set_field_replaces_in_place (form [site]) (date "2024-02-29")); [done|].
    intros (f & Hf & Hname). simpl in Hf.
    apply elem_of_cons in Hf as [->|Hf]; [discriminate|].
    by apply elem_of_nil in Hf.
  - apply (set_field_replaces_in_place (form [site; date "2026-11-03"])
             (date "2024-02-29")); [reflexivity|].
    eexists. split; [simpl; right; left|reflexivity].
Defined.

(** ** parse_cgi_value *)

Section parse_cgi_value_properties.
Variables (cgiValues : gmap string string) (default_value : string).

Lemma parse_cgi_entry_insert result key :
  parse_cgi_entry cgiValues default_value result key
  = <[key := normalized cgiValues default_value key]> result.
Proof.
  unfold parse_cgi_entry, normalized, str.
  destruct (cgiValues !! key) as [v|]; [|done].
  destruct (String.eqb_spec v "") as [Hempty|Hne]; simpl.
  { rewrite decide_False; [done|]. by intros [? _]. }
  destruct (String.eqb_spec v default_value) as [Hdef|Hdef]; simpl.
  - rewrite decide_False; [done|]. by intros [_ ?].
  - by rewrite decide_True.
Qed.

Lemma parse_cgi_value_loop keys result key :
  foldl (parse_cgi_entry cgiValues default_value) result keys !! key
  = if decide (key ∈ keys) then Some (normalized cgiValues default_value key)
    else result !! key.
Proof.
  revert result. induction keys as [|k keys IH]; intros result; cbn [foldl].
  - rewrite decide_False; [done|]. apply not_elem_of_nil.
  - rewrite IH, parse_cgi_entry_insert. destruct (decide (key ∈ keys)) as [Hin|Hnotin].
    + rewrite decide_True; [done|]. by right.
    + destruct (decide (k = key)) as [->|Hne].
      * rewrite lookup_insert_eq, decide_True; [done|]. by left.
      * rewrite lookup_insert_ne by done. rewrite decide_False; [done|].
        intros [?|?]%elem_of_cons; congruence.
Qed.

Lemma parse_cgi_value_Ok keys :
  parse_cgi_value (Instance cgiValues) (Instance keys) default_value
  = Ok (foldl (parse_cgi_entry cgiValues default_value) ∅ keys).
Proof. reflexivity. Qed.
End parse_cgi_value_properties.

(** C8: [parse_cgi_value] raises ValueError when [cgiValues] is not a
    dictionary and when [keys] is not a list; otherwise it returns a
    dictionary whose keys are exactly the given keys, each mapped to the
    entry of [cgiValues] under it (already a string) when that entry is
    present, is not the empty string and differs from [default_value], and
    to None otherwise. *)
Theorem parse_cgi_value_normalizes (cgiValues : gmap string string)
    (keys : list string) (default_value : string) :
  (∀ keys', parse_cgi_value NotInstance keys' default_value
            = Raise (ValueError (Msg "Expected a dictionary for cgiValues"))) ∧
  parse_cgi_value (Instance cgiValues) NotInstance default_value
    = Raise (ValueError (Msg "Expected a list for keys")) ∧
  ∃ result,
    parse_cgi_value (Instance cgiValues) (Instance keys) default_value = Ok result ∧
    dom result = list_to_set keys ∧
    ∀ key, key ∈ keys →
      (∀ v, cgiValues !! key = Some v → v ≠ "" → v ≠ default_value →
            result !! key = Some (Some v)) ∧
      (cgiValues !! key = None ∨ cgiValues !! key = Some "" ∨
       cgiValues !! key = Some default_value →
       result !! key = Some None).
Proof.
  split; [done|]. split; [done|]. eexists. split; [apply parse_cgi_value_Ok|].
  split.
  - apply set_eq. intros key. rewrite elem_of_dom, elem_of_list_to_set.
    rewrite parse_cgi_value_loop. destruct (decide (key ∈ keys)) as [Hin|Hnotin].
    + split; [done|]. intros _. eauto.
    + rewrite lookup_empty. split; [by intros []|done].
  - intros key Hin. rewrite parse_cgi_value_loop, decide_True by done.
    unfold normalized. split.
    + intros v -> Hne Hdef. by rewrite decide_True.
    + intros [Hv | [Hv | Hv]]; rewrite Hv; [done|..];
        (rewrite decide_False; [done|]); intros [? ?]; congruence.
Qed.

Lemma parse_cgi_value_normalizes_witness :
  ∃ result,
    parse_cgi_value (Instance {["k" := "ANY"; "j" := "42"]}) (Instance ["k"; "m"; "j"]) "ANY"
      = Ok result ∧
    dom result = list_to_set ["k"; "m"; "j"] ∧
    result !! "k" = Some None ∧ result !! "m" = Some None ∧ result !! "j" = Some (Some "42").
Proof.
  destruct (parse_cgi_value_normalizes {["k" := "ANY"; "j" := "42"]} ["k"; "m"; "j"] "ANY")
    as (_ & _ & result & Hres & Hdom & Hkeys).
  exists result. split; [done|]. split; [done|].
  split; [|split].
  - apply (Hkeys "k"); [left|]. right. right. reflexivity.
  - apply (Hkeys "m"); [right; left|]. left. reflexivity.
  - apply (Hkeys "j"); [right; right; left|reflexivity|discriminate..].
Defined.

(** ** extract_rows_unique_value *)

Section sorted_properties.
Lemma StronglySorted_strict {A} (R : relation A) (l : list A) :
  StronglySorted R l → NoDup l → StronglySorted (λ x y, R x y ∧ x ≠ y) l.
Proof.
  induction 1 as [|x l Hl IH Hx]; intros Hnodup; [constructor|].
  apply NoDup_cons in Hnodup as [Hnotin Hnodup]. constructor; [by apply IH|].
  apply Forall_forall. intros y Hy. split.
  - by eapply Forall_forall in Hx.
  - by intros ->.
Qed.

Lemma sorted_ints ns : sorted (PyInt <$> ns) = Ok (PyInt <$> merge_sort Z.le ns).
Proof. unfold sorted. by rewrite mapM_fmap_Some. Qed.

Lemma sorted_strs ss : sorted (PyStr <$> ss) = Ok (PyStr <$> merge_sort String.le ss).
Proof.
  destruct ss as [|s ss]; [done|]. unfold sorted.
  assert (mapM as_int (PyStr <$> s :: ss) = None) as -> by done.
  by rewrite mapM_fmap_Some.
Qed.

Lemma all_ints l :
  PyNone ∉ l → forallb not_str l = true → ∃ ns, l = PyInt <$> ns.
Proof.
  induction l as [|x l IH]; intros Hnone Hall; [by exists []|].
  apply not_elem_of_cons in Hnone as [Hx Hnone].
  simpl in Hall. apply andb_prop in Hall as [Hhd Hall].
  destruct (IH Hnone Hall) as [ns ->].
  destruct x as [|n|s]; [done| |done]. by exists (n :: ns).
Qed.

Lemma all_strs l :
  PyNone ∉ l → forallb not_int l = true → ∃ ss, l = PyStr <$> ss.
Proof.
  induction l as [|x l IH]; intros Hnone Hall; [by exists []|].
  apply not_elem_of_cons in Hnone as [Hx Hnone].
  simpl in Hall. apply andb_prop in Hall as [Hhd Hall].
  destruct (IH Hnone Hall) as [ss ->].
  destruct x as [|n|s]; [done|done|]. by exists (s :: ss).
Qed.

(** On distinct comparable values [sorted] returns the same values in
    strictly ascending order. *)
Lemma sorted_ascending l :
  NoDup l → PyNone ∉ l → comparable l = true →
  ∃ l', sorted l = Ok l' ∧ StronglySorted py_lt l' ∧ ∀ x, x ∈ l' ↔ x ∈ l.
Proof.
  intros Hnodup Hnone [Hints|Hstrs]%orb_prop.
  - destruct (all_ints l Hnone Hints) as [ns ->].
    apply NoDup_fmap in Hnodup; [|apply _].
    eexists. split; [apply sorted_ints|]. split.
    + apply (StronglySorted_fmap _ (λ x y, (x ≤ y)%Z ∧ x ≠ y)).
      * intros x y [Hle Hne]. simpl. lia.
      * apply StronglySorted_strict; [apply StronglySorted_merge_sort; apply _|].
        by rewrite merge_sort_Permutation.
    + intros x. by rewrite merge_sort_Permutation.
  - destruct (all_strs l Hnone Hstrs) as [ss ->].
    apply NoDup_fmap in Hnodup; [|apply _].
    eexists. split; [apply sorted_strs|]. split.
    + apply (StronglySorted_fmap _ (λ x y, String.le x y ∧ x ≠ y)); [done|].
      apply StronglySorted_strict; [apply StronglySorted_merge_sort; apply _|].
      by rewrite merge_sort_Permutation.
    + intros x. by rewrite merge_sort_Permutation.
Qed.

(** None compares with nothing but is dropped before sorting, so it does
    not count. *)
Lemma comparable_subseteq l1 l2 :
  (∀ x, x ∈ l1 → x ≠ PyNone → x ∈ l2) → comparable l2 = true → comparable l1 = true.
Proof.
  intros Hsub. unfold comparable. rewrite !orb_true_iff, !forallb_forall.
  setoid_rewrite <-list_elem_of_In.
  intros [Hall|Hall]; [left|right]; intros x Hx;
    (destruct (decide (x = PyNone)) as [->|Hne]; [done|]); by apply Hall, Hsub.
Qed.

Lemma forallb_false_elem_of {A} (f : A → bool) (l : list A) :
  forallb f l = false → ∃ x, x ∈ l ∧ f x = false.
Proof.
  induction l as [|x l IH]; [done|]. simpl. intros [Hx|Hl]%andb_false_iff.
  - exists x. split; [left|done].
  - destruct (IH Hl) as (y & Hy & Hfy). exists y. split; [by right|done].
Qed.

(** A list holding both an integer and a string cannot be sorted. *)
Lemma sorted_incomparable l : comparable l = false → sorted l = Raise TypeError.
Proof.
  unfold comparable. intros [Hstr Hint]%orb_false_elim.
  apply forallb_false_elem_of in Hstr as (x & Hx & Hxs).
  apply forallb_false_elem_of in Hint as (y & Hy & Hyn).
  destruct x as [| |s]; try done. destruct y as [|n|]; try done.
  unfold sorted. rewrite (mapM_None_2 as_int).
  2:{ apply Exists_exists. by exists (PyStr s). }
  rewrite (mapM_None_2 as_str).
  2:{ apply Exists_exists. by exists (PyInt n). }
  rewrite bool_decide_false; [done|].
  destruct l as [|a [|b l]]; simpl; [|by set_unfold; naive_solver|lia].
  by apply elem_of_nil in Hx.
Qed.

End sorted_properties.

Section extract_rows_properties.
Implicit Types (r first : gmap string pyval) (uv : gmap string (gset pyval)).
Implicit Types (k : string) (x : pyval).

Lemma defaultdict_add_elem k0 x0 uv k x :
  x ∈ default ∅ (defaultdict_add k0 x0 uv !! k) ↔
  x ∈ default ∅ (uv !! k) ∨ (k = k0 ∧ x = x0).
Proof.
  unfold defaultdict_add. destruct (decide (k0 = k)) as [->|Hne].
  - rewrite lookup_insert_eq. simpl. set_solver.
  - rewrite lookup_insert_ne by done. naive_solver.
Qed.

(** The inner loop, [for k in keys], on a row that has all the keys. *)
Lemma extract_keys_loop r keys uv :
  (∀ k, k ∈ keys → is_Some (r !! k)) →
  ∃ uv',
    for_each (λ uv k, x ← dict_getitem r k; Ok (defaultdict_add k x uv)) uv keys
      = Ok uv' ∧
    dom uv' = dom uv ∪ list_to_set keys ∧
    ∀ k x, x ∈ default ∅ (uv' !! k) ↔
           x ∈ default ∅ (uv !! k) ∨ (k ∈ keys ∧ r !! k = Some x).
Proof.
  revert uv. induction keys as [|k0 keys IH]; intros uv Hkeys.
  - exists uv. split; [done|]. split; [set_solver|].
    intros k x. rewrite elem_of_nil. naive_solver.
  - destruct (Hkeys k0) as [x0 Hx0]; [by left|].
    destruct (IH (defaultdict_add k0 x0 uv)) as (uv' & Hloop & Hdom & Helem).
    { intros k Hk. apply Hkeys. by right. }
    exists uv'. split; [|split].
    + cbn [for_each]. unfold dict_getitem. rewrite Hx0. exact Hloop.
    + rewrite Hdom. unfold defaultdict_add. rewrite dom_insert_L. set_solver.
    + intros k x. rewrite Helem, defaultdict_add_elem, elem_of_cons.
      split; [|naive_solver].
      intros [[?|[-> ->]]|[? ?]]; eauto.
Qed.

Lemma extract_row_Ok first uv r :
  dom r = dom first →
  ∃ uv',
    extract_row first uv (Instance r) = Ok uv' ∧
    dom uv' = dom uv ∪ dom first ∧
    ∀ k x, x ∈ default ∅ (uv' !! k) ↔ x ∈ default ∅ (uv !! k) ∨ r !! k = Some x.
Proof.
  intros Hdom. unfold extract_row. rewrite bool_decide_false by (by intros ?).
  destruct (extract_keys_loop r (elements (dom first)) uv) as (uv' & -> & Hd & Helem).
  { intros k Hk%elem_of_elements. rewrite <-Hdom in Hk. by apply elem_of_dom. }
  exists uv'. split; [done|]. split.
  - rewrite Hd. by rewrite list_to_set_elements_L.
  - intros k x. rewrite Helem. split; [naive_solver|].
    intros [?|Hx]; [by left|]. right. split; [|done].
    apply elem_of_elements. rewrite <-Hdom. by eapply elem_of_dom_2.
Qed.

(** The outer loop on rows that are all dictionaries with the keys of the
    first one. *)
Lemma extract_rows_loop first (rows : list (gmap string pyval)) uv :
  Forall (λ r, dom r = dom first) rows →
  ∃ uv',
    for_each (extract_row first) uv (Instance <$> rows) = Ok uv' ∧
    dom uv' = dom uv ∪ (if rows is [] then ∅ else dom first) ∧
    ∀ k x, x ∈ default ∅ (uv' !! k) ↔
           x ∈ default ∅ (uv !! k) ∨ ∃ r, r ∈ rows ∧ r !! k = Some x.
Proof.
  intros Hrows. revert uv. induction Hrows as [|r rows Hr _ IH]; intros uv.
  - exists uv. split; [done|]. split; [set_solver|].
    intros k x. split; [by left|]. intros [?|(r & Hin & _)]; [done|].
    by apply elem_of_nil in Hin.
  - destruct (extract_row_Ok first uv r Hr) as (uv1 & Hrow & Hd1 & Helem1).
    destruct (IH uv1) as (uv' & Hloop & Hd & Helem).
    exists uv'. split; [|split].
    + rewrite fmap_cons. cbn [for_each]. rewrite Hrow. exact Hloop.
    + rewrite Hd, Hd1. destruct rows; set_solver.
    + intros k x. rewrite Helem, Helem1. split.
      * intros [[?|?]|(r' & Hin & Hx)]; [by left|right..].
        -- exists r. split; [by left|done].
        -- exists r'. split; [by right|done].
      * intros [?|(r' & [->|Hin]%elem_of_cons & Hx)]; [by left; left|by left; right|].
        right. by exists r'.
Qed.

(** A row that is not a dictionary, or whose keys differ, stops the loop
    with ValueError, wherever it stands. *)
Lemma extract_rows_loop_bad first (rows : list (pyobj (gmap string pyval))) uv :
  (NotInstance ∈ rows ∨ ∃ r, Instance r ∈ rows ∧ dom r ≠ dom first) →
  for_each (extract_row first) uv rows
  = Raise (ValueError (Msg "All rows must be dictionaries with the same keys")).
Proof.
  revert uv. induction rows as [|row rows IH]; intros uv Hbad.
  { destruct Hbad as [Hin|(r & Hin & _)]; by apply elem_of_nil in Hin. }
  cbn [for_each]. destruct row as [|r]; [done|].
  destruct (decide (dom r = dom first)) as [Hdom|Hdom].
  - destruct (extract_row_Ok first uv r Hdom) as (uv1 & -> & _). simpl.
    apply IH. destruct Hbad as [Hin|(r' & Hin & Hne)].
    + left. by apply elem_of_cons in Hin as [?|?].
    + right. exists r'. split; [|done].
      apply elem_of_cons in Hin as [[= ->]|?]; [done|done].
  - unfold extract_row. by rewrite bool_decide_true.
Qed.

Lemma dict_comprehension_loop {A B} (f : A → result B) (g : A → B)
    (l : list (string * A)) (acc : gmap string B) :
  (∀ k v, (k, v) ∈ l → f v = Ok (g v)) → NoDup l.*1 →
  for_each (λ acc '(k, v), b ← f v; Ok (<[k := b]> acc)) acc l
  = Ok (list_to_map (prod_map id g <$> l) ∪ acc).
Proof.
  revert acc. induction l as [|[k v] l IH]; intros acc Hf Hnodup.
  - simpl. by rewrite (left_id_L ∅ (∪)).
  - apply NoDup_cons in Hnodup as [Hk Hnodup]. cbn [for_each].
    rewrite (Hf k v) by left. simpl.
    rewrite IH; [|by intros k' v' Hin; apply (Hf k' v'); right|done].
    f_equal. rewrite <-insert_union_l, <-insert_union_r; [done|].
    apply not_elem_of_list_to_map. rewrite <-list_fmap_compose.
    by replace (fst ∘ prod_map id g) with (@fst string A) by done.
Qed.

Lemma dict_comprehension_Ok {A B} (f : A → result B) (g : A → B) (d : gmap string A) :
  (∀ k v, d !! k = Some v → f v = Ok (g v)) →
  dict_comprehension f d = Ok (g <$> d).
Proof.
  intros Hf. unfold dict_comprehension. rewrite (dict_comprehension_loop f g).
  - by rewrite list_to_map_fmap, list_to_map_to_list, (right_id_L ∅ (∪)).
  - intros k v Hin. by eapply Hf, elem_of_map_to_list.
  - apply NoDup_fst_map_to_list.
Qed.
End extract_rows_properties.

Lemma sorted_column (v : gset pyval) (cells : list pyval) :
  (∀ x, x ∈ v → x ∈ cells) → comparable cells = true →
  ∃ l, sorted (filter (λ x, x ≠ PyNone) (elements v)) = Ok l ∧
       StronglySorted py_lt l ∧
       ∀ x, x ∈ l ↔ x ≠ PyNone ∧ x ∈ v.
Proof.
  intros Hsub Hcmp.
  destruct (sorted_ascending (filter (λ x, x ≠ PyNone) (elements v)))
    as (l & Hsorted & Hasc & Hmem).
  - apply NoDup_filter, NoDup_elements.
  - rewrite list_elem_of_filter. by intros [? _].
  - apply (comparable_subseteq _ cells); [|done].
    intros x [_ Hx%elem_of_elements]%list_elem_of_filter _. by apply Hsub.
  - exists l. split; [done|]. split; [done|].
    intros x. by rewrite Hmem, list_elem_of_filter, elem_of_elements.
Qed.

(** C7 (amended): [extract_rows_unique_value] returns the empty dictionary for an
    empty list; raises ValueError when the argument is not a list, when its
    first element is not a dictionary, and when any later element is not a
    dictionary or has a key set other than that of the first; and otherwise,
    provided the values other than None under each key are all integers or
    all strings (so that any two compare), returns a dictionary whose
    keys are those of the first row, each mapped to the strictly ascending
    (hence duplicate-free) list of exactly the non-None values found under
    that key in some row. *)
Theorem extract_rows_unique_value_sorted_distinct :
  extract_rows_unique_value (Instance []) = Ok ∅ ∧
  extract_rows_unique_value NotInstance
    = Raise (ValueError (Msg "Expected a list of dictionaries")) ∧
  (∀ rest, extract_rows_unique_value (Instance (NotInstance :: rest))
           = Raise (ValueError (Msg "Expected a list of dictionaries"))) ∧
  (∀ first rest,
     (NotInstance ∈ rest ∨ ∃ r, Instance r ∈ rest ∧ dom r ≠ dom first) →
     extract_rows_unique_value (Instance (Instance first :: rest))
     = Raise (ValueError (Msg "All rows must be dictionaries with the same keys"))) ∧
  (∀ first rest,
     let rows := first :: rest in
     (∀ r, r ∈ rest → dom r = dom first) →
     (∀ k, k ∈ dom first → comparable (column rows k) = true) →
     ∃ result,
       extract_rows_unique_value (Instance (Instance <$> rows)) = Ok result ∧
       dom result = dom first ∧
       ∀ k, k ∈ dom first →
         ∃ l, result !! k = Some l ∧
              StronglySorted py_lt l ∧
              ∀ x, x ∈ l ↔ x ≠ PyNone ∧ ∃ r, r ∈ rows ∧ r !! k = Some x).
Proof.
  split; [done|]. split; [done|]. split; [done|]. split.
  - intros first rest Hbad. unfold extract_rows_unique_value.
    rewrite extract_rows_loop_bad; [done|].
    destruct Hbad as [Hin|(r & Hin & Hne)].
    + left. by right.
    + right. exists r. split; [by right|done].
  - intros first rest rows Hshape Hcmp.
    destruct (extract_rows_loop first rows ∅) as (uv & Hloop & Hdom & Helem).
    { constructor; [done|]. by apply Forall_forall. }
    rewrite dom_empty_L, (left_id_L ∅ (∪)) in Hdom. simpl in Hdom.
    assert (∀ k v, uv !! k = Some v →
              ∃ l, sorted (filter (λ x, x ≠ PyNone) (elements v)) = Ok l ∧
                   StronglySorted py_lt l ∧
                   ∀ x, x ∈ l ↔ x ≠ PyNone ∧ ∃ r, r ∈ rows ∧ r !! k = Some x)
      as Hcol.
    { intros k v Hk.
      destruct (sorted_column v (column rows k)) as (l & Hsorted & Hasc & Hmem).
      - intros x Hx. apply list_elem_of_omap.
        specialize (Helem k x). rewrite Hk, lookup_empty in Helem. simpl in Helem.
        apply Helem in Hx as [Hx|Hx]; [|done]. by apply elem_of_empty in Hx.
      - apply Hcmp. rewrite <-Hdom. by eapply elem_of_dom_2.
      - exists l. split; [done|]. split; [done|].
        intros x. rewrite Hmem. specialize (Helem k x).
        rewrite Hk, lookup_empty in Helem. simpl in Helem. rewrite Helem.
        split; intros [Hne Hx]; (split; [done|]); [|by right].
        destruct Hx as [Hx|Hx]; [|done]. by apply elem_of_empty in Hx. }
    set (f := λ v : gset pyval, sorted (filter (λ x, x ≠ PyNone) (elements v))).
    set (g := λ v : gset pyval, match f v with Ok l => l | Raise _ => [] end).
    assert (∀ k v, uv !! k = Some v → f v = Ok (g v)) as Hfg.
    { intros k v Hk. destruct (Hcol k v Hk) as (l & Hsorted & _).
      unfold g, f. by rewrite Hsorted. }
    exists (g <$> uv). split; [|split].
    + change (Instance <$> rows) with (Instance first :: (Instance <$> rest)).
      unfold extract_rows_unique_value.
      change (Instance first :: (Instance <$> rest)) with (Instance <$> rows).
      rewrite Hloop. simpl. by apply (dict_comprehension_Ok f g).
    + by rewrite dom_fmap_L.
    + intros k Hk. rewrite <-Hdom in Hk. apply elem_of_dom in Hk as [v Hv].
      destruct (Hcol k v Hv) as (l & Hsorted & Hasc & Hmem).
      exists l. rewrite lookup_fmap, Hv. simpl. split; [|done].
      unfold g, f. by rewrite Hsorted.
Qed.

Lemma extract_rows_unique_value_sorted_distinct_witness :
  let first : gmap string pyval := {["a" := PyInt 1; "b" := PyStr "x"]} in
  let rest : list (gmap string pyval) :=
    [ {["a" := PyInt 2; "b" := PyStr "x"]}; {["a" := PyNone; "b" := PyStr "y"]} ] in
  extract_rows_unique_value (Instance [Instance first; NotInstance])
    = Raise (ValueError (Msg "All rows must be dictionaries with the same keys")) ∧
  extract_rows_unique_value (Instance [Instance first; Instance {["a" := PyInt 2]}])
    = Raise (ValueError (Msg "All rows must be dictionaries with the same keys")) ∧
  ∃ result,
    extract_rows_unique_value (Instance (Instance <$> first :: rest)) = Ok result ∧
    dom result = dom first ∧
    ∀ k, k ∈ dom first →
      ∃ l, result !! k = Some l ∧
           StronglySorted py_lt l ∧
           ∀ x, x ∈ l ↔ x ≠ PyNone ∧ ∃ r, r ∈ first :: rest ∧ r !! k = Some x.
Proof.
  intros first rest.
  destruct extract_rows_unique_value_sorted_distinct as (_ & _ & _ & Hbad & Hgood).
  split; [|split].
  - apply Hbad. left. left.
  - apply Hbad. right. exists {["a" := PyInt 2]}. split; [left|].
    apply (bool_decide_unpack _). by vm_compute.
  - apply Hgood.
    + apply Forall_forall. apply (bool_decide_unpack _). by vm_compute.
    + assert (Forall (λ k, comparable (column (first :: rest) k) = true)
                (elements (dom first))) as Hall.
      { apply (bool_decide_unpack _). by vm_compute. }
      intros k Hk. rewrite Forall_forall in Hall. by apply Hall, elem_of_elements.
Defined.

(** The example of the specification. *)
Example extract_rows_unique_value_example :
  extract_rows_unique_value
    (Instance [Instance {["a" := PyInt 1; "b" := PyStr "x"]};
               Instance {["a" := PyInt 2; "b" := PyStr "x"]};
               Instance {["a" := PyNone; "b" := PyStr "y"]}])
    = Ok {["a" := [PyInt 1; PyInt 2]; "b" := [PyStr "x"; PyStr "y"]]}.
Proof. by vm_compute. Qed.

(** C7 as stated fails on the code: on the two rows [{"a": 1}] and
    [{"a": "x"}], which have the same keys, nothing is returned: sorting the
    values found under "a" raises TypeError. *)
Lemma extract_rows_unique_value_mixed_column :
  extract_rows_unique_value
    (Instance [Instance {["a" := PyInt 1]}; Instance {["a" := PyStr "x"]}])
    = Raise TypeError.
Proof. by vm_compute. Qed.

Lemma dict_comprehension_Raise {A B} (f : A → result B) (e : exn) (d : gmap string A) :
  (∀ k v, d !! k = Some v → f v = Raise e ∨ ∃ b, f v = Ok b) →
  (∃ k v, d !! k = Some v ∧ f v = Raise e) →
  dict_comprehension f d = Raise e.
Proof.
  intros Hall (k & v & Hk & Hv). unfold dict_comprehension.
  assert (∀ k v, (k, v) ∈ map_to_list d → f v = Raise e ∨ ∃ b, f v = Ok b) as Hl.
  { intros k' v' Hin%elem_of_map_to_list. by eapply Hall. }
  apply elem_of_map_to_list in Hk. clear Hall. revert Hl Hk.
  generalize (map_to_list d) (∅ : gmap string B).
  intros l. induction l as [|[k0 v0] l IH]; intros acc Hl Hk.
  { by apply elem_of_nil in Hk. }
  cbn [for_each]. destruct (Hl k0 v0) as [->|[b Hb]]; [left|done|].
  rewrite Hb. simpl. apply IH.
  - intros k' v' Hin. apply (Hl k' v'). by right.
  - apply elem_of_cons in Hk as [[= <- <-]|Hk]; [congruence|done].
Qed.

(** The proviso of the amended C7 is needed: on rows of one shape, a key
    under which the values are not comparable makes the call raise
    TypeError. *)
Lemma extract_rows_unique_value_incomparable first rest k :
  let rows := first :: rest in
  (∀ r, r ∈ rest → dom r = dom first) →
  k ∈ dom first → comparable (column rows k) = false →
  extract_rows_unique_value (Instance (Instance <$> rows)) = Raise TypeError.
Proof.
  intros rows Hshape Hk Hcmp.
  destruct (extract_rows_loop first rows ∅) as (uv & Hloop & Hdom & Helem).
  { constructor; [done|]. by apply Forall_forall. }
  rewrite dom_empty_L, (left_id_L ∅ (∪)) in Hdom. simpl in Hdom.
  change (Instance <$> rows) with (Instance first :: (Instance <$> rest)).
  unfold extract_rows_unique_value.
  change (Instance first :: (Instance <$> rest)) with (Instance <$> rows).
  rewrite Hloop. simpl. apply dict_comprehension_Raise.
  - intros k' v Hv.
    destruct (comparable (filter (λ x, x ≠ PyNone) (elements v))) eqn:Hc.
    + right. destruct (sorted_ascending (filter (λ x, x ≠ PyNone) (elements v)))
        as (l & Hl & _); [| |done|by exists l].
      * apply NoDup_filter, NoDup_elements.
      * rewrite list_elem_of_filter. by intros [? _].
    + left. by apply sorted_incomparable.
  - rewrite <-Hdom in Hk. apply elem_of_dom in Hk as [v Hv]. exists k, v.
    split; [done|]. apply sorted_incomparable.
    destruct (comparable (filter _ (elements v))) eqn:Hc; [|done].
    rewrite (comparable_subseteq (column rows k)
               (filter (λ x, x ≠ PyNone) (elements v))) in Hcmp; [done| |done].
    intros x Hx Hne. apply list_elem_of_filter. split; [done|].
    apply elem_of_elements. apply list_elem_of_omap in Hx.
    specialize (Helem k x). rewrite Hv, lookup_empty in Helem. simpl in Helem.
    apply Helem. by right.
Qed.

(** * Further properties of the code *)

(** ** Select: a successful assignment, and what the operations forget *)

Lemma select_values_alter j (l : list Option) :
  opt_value <$> alter select j l = opt_value <$> l.
Proof.
  rewrite (list_fmap_alter opt_value select id); [|by apply Forall_true].
  apply list_eq. intros k. destruct (decide (j = k)) as [->|Hne].
  - rewrite list_lookup_alter_eq. by destruct (_ !! k).
  - by rewrite list_lookup_alter_ne.
Qed.

Lemma unselect_values (l : list Option) :
  unselect <$> l = (λ v, mkOption v false) <$> (opt_value <$> l).
Proof. by rewrite <-list_fmap_compose. Qed.

Lemma unselect_same_values (l : list Option) :
  opt_value <$> (unselect <$> l) = opt_value <$> l.
Proof. by rewrite <-list_fmap_compose. Qed.

(** An operation changes flags only: the values of the options stay as they
    are, in the same order. *)
Lemma Select_run_values op self :
  opt_value <$> sel_options (Select_run op self).2 = opt_value <$> sel_options self.
Proof.
  destruct op as [[v|]| |lab n]; cbn [Select_run]; try done.
  - rewrite Select_set_value_find.
    destruct (list_find _ _) as [[j o]|]; simpl.
    + by rewrite select_values_alter, unselect_same_values.
    + apply unselect_same_values.
  - apply unselect_same_values.
Qed.


Lemma selected_count_alter j o (l : list Option) :
  Forall unselected l → l !! j = Some o →
  length (filter (λ o, is_selected o = true) (alter select j l)) = 1.
Proof.
  intros Hl Hj. apply Nat.le_antisymm.
  - apply (filter_selected_le_1 _ j). intros k o' Hne.
    rewrite list_lookup_alter_ne by done. intros Hk. by eapply Forall_lookup_1 in Hl.
  - assert (select o ∈ filter (λ o, is_selected o = true) (alter select j l)) as Hin.
    { apply list_elem_of_filter. split; [done|]. apply list_elem_of_lookup.
      exists j. by rewrite list_lookup_alter_eq, Hj. }
    destruct (filter _ _); [by apply elem_of_nil in Hin|simpl; lia].
Qed.

Lemma Select_set_value_first_match (self : Select) (v : string) :
  (∃ o, o ∈ sel_options self ∧ opt_value o = v) →
  ∃ self' i,
    Select_set_value (Some v) self = (Ok tt, self') ∧
    Select_value self' = Some v ∧
    sel_value self' = Some i ∧
    (∃ o, sel_options self !! i = Some o ∧ opt_value o = v) ∧
    (∀ j o, j < i → sel_options self !! j = Some o → opt_value o ≠ v) ∧
    selected_count self' = 1 ∧
    opt_value <$> sel_options self' = opt_value <$> sel_options self ∧
    sel_name self' = sel_name self ∧ sel_label_name self' = sel_label_name self ∧
    sel_options self' = alter select i (unselect <$> sel_options self).
Proof.
  intros (o & Hin & Hv). rewrite Select_set_value_find.
  destruct (list_find_elem_of (λ o, opt_value o = v) _ o Hin Hv) as [[i o'] Hfind].
  rewrite Hfind. apply list_find_Some in Hfind as (Hi & Ho' & Hfirst).
  assert ((unselect <$> sel_options self) !! i = Some (unselect o')) as Hi'.
  { by rewrite list_lookup_fmap, Hi. }
  eexists _, i. split; [done|]. repeat split; simpl.
  - unfold Select_value. simpl. by rewrite list_lookup_alter_eq, Hi', <-Ho'.
  - by exists o'.
  - intros j o'' Hlt Hj. by eapply Hfirst.
  - unfold selected_count. simpl.
    eapply selected_count_alter; [apply unselect_unselected|done].
  - by rewrite select_values_alter, unselect_same_values.
Qed.

(** X1: when some option carries the value [v], assigning [v] returns
    normally and selects the first such option and no other: the getter then
    returns [v], exactly one flag is set, and name, label and option values
    are as before; the flag set is that of the option selected, the options
    being the old ones deselected but for it. *)
Theorem Select_set_value_selects_first (self : Select) (v : string) :
  (∃ o, o ∈ sel_options self ∧ opt_value o = v) →
  ∃ self' i,
    Select_set_value (Some v) self = (Ok tt, self') ∧
    Select_value self' = Some v ∧
    sel_value self' = Some i ∧
    (∃ o, sel_options self !! i = Some o ∧ opt_value o = v) ∧
    (∀ j o, j < i → sel_options self !! j = Some o → opt_value o ≠ v) ∧
    selected_count self' = 1 ∧
    opt_value <$> sel_options self' = opt_value <$> sel_options self ∧
    sel_name self' = sel_name self ∧ sel_label_name self' = sel_label_name self ∧
    sel_options self' = alter select i (unselect <$> sel_options self).
Proof. apply Select_set_value_first_match. Qed.

Lemma Select_set_value_selects_first_witness :
  ∃ self' i,
    Select_set_value (Some "b")
      (mkSelect (Some "site") "Site"
         [mkOption "ANY" true; mkOption "b" false; mkOption "b" false] (Some 0))
      = (Ok tt, self') ∧
    Select_value self' = Some "b" ∧ sel_value self' = Some i ∧
    selected_count self' = 1.
Proof.
  destruct (Select_set_value_selects_first
              (mkSelect (Some "site") "Site"
                 [mkOption "ANY" true; mkOption "b" false; mkOption "b" false] (Some 0))
              "b") as (self' & i & Hset & Hget & Hi & _ & _ & Hcount & _).
  - exists (mkOption "b" false). split; [right; left|reflexivity].
  - by exists self', i.
Defined.



Lemma Select_run_all_values ops self :
  opt_value <$> sel_options (Select_run_all ops self) = opt_value <$> sel_options self.
Proof.
  revert self. induction ops as [|op ops IH]; intros self; [done|].
  unfold Select_run_all in *. cbn [foldl]. by rewrite IH, Select_run_values.
Qed.

(** The constructor is an assignment on the deselected list made of the
    sentinel and the given options. *)
Lemma Select_init_assignment name label_name options value :
  Select_init name label_name options value =
  match Select_set_value (Some (value or_else default_value))
          (mkSelect name label_name
             ((λ v, mkOption v false) <$> default_value :: options) None) with
  | (Ok _, self) => Ok self
  | (Raise e, _) => Raise e
  end.
Proof.
  unfold Select_init. cbn [opt_value]. unfold mbind, M_bind.
  rewrite Select_reset_eq. cbn [sel_name sel_label_name sel_options].
  rewrite fmap_cons, <-list_fmap_compose. done.
Qed.

Lemma constructor_values (options : list string) :
  opt_value <$> ((λ v, mkOption v false) <$> options) = options.
Proof. rewrite <-list_fmap_compose. apply list_fmap_id. Qed.

(** X3: the options of a Select are fixed at construction: whatever
    operations are run on it afterwards, and whether they return or raise,
    the option values are the sentinel "ANY" followed by the strings given to
    the constructor, in the order given. *)
Theorem Select_options_fixed name label_name options value ops self :
  Select_init name label_name options value = Ok self →
  opt_value <$> sel_options (Select_run_all ops self) = default_value :: options.
Proof.
  rewrite Select_init_assignment, Select_run_all_values. intros Hinit.
  pose proof (Select_run_values (OpSetValue (Some (value or_else default_value)))
                (mkSelect name label_name
                   ((λ v, mkOption v false) <$> default_value :: options) None)) as Hv.
  cbn [Select_run sel_options] in Hv. rewrite constructor_values in Hv.
  destruct (Select_set_value _ _) as [[[]|e] self']; by simplify_eq/=.
Qed.

Lemma Select_options_fixed_witness :
  opt_value <$> sel_options
    (Select_run_all [OpSetValue (Some "b"); OpSetValue (Some "z"); OpReset;
                     OpRename "Place" None]
       (mkSelect (Some "site") "Site"
          [mkOption "ANY" false; mkOption "a" true; mkOption "b" false] (Some 1)))
  = ["ANY"; "a"; "b"].
Proof.
  apply (Select_options_fixed (Some "site") "Site" ["a"; "b"] (Some "a")).
  reflexivity.
Defined.

(** X4: constructing a Select with a non-empty value succeeds exactly when
    the value is the sentinel "ANY" or one of the given options: then that
    value is selected and nothing else (the first option carrying it has its
    flag set and is the selected one), name and label being those given;
    otherwise the constructor raises ValueError listing the available values
    and no object is made. *)
Theorem Select_init_with_value name label_name options (v : string) :
  v ≠ "" →
  (v ∈ default_value :: options →
   ∃ self,
     Select_init name label_name options (Some v) = Ok self ∧
     Select_value self = Some v ∧ selected_count self = 1 ∧
     opt_value <$> sel_options self = default_value :: options ∧
     sel_name self = name ∧ sel_label_name self = label_name ∧
     ∃ i, (default_value :: options) !! i = Some v ∧
          (∀ j, j < i → (default_value :: options) !! j ≠ Some v) ∧
          sel_value self = Some i ∧
          sel_options self
          = alter select i ((λ v, mkOption v false) <$> default_value :: options)) ∧
  (v ∉ default_value :: options →
   Select_init name label_name options (Some v)
   = Raise (ValueError (FailedToSelect v name (default_value :: options)))).
Proof.
  intros Hv. rewrite Select_init_assignment.
  assert (Some v or_else default_value = v) as ->.
  { simpl. by destruct (String.eqb_spec v ""). }
  set (self0 := mkSelect name label_name
                  ((λ v, mkOption v false) <$> default_value :: options) None).
  split.
  - intros Hin. destruct (Select_set_value_first_match self0 v)
      as (self & i & -> & Hget & Hsel & (o & Hi & Ho) & Hfirst & Hcount & Hvalues
          & Hname & Hlabel & Hopts).
    { exists (mkOption v false). split; [|done].
      by apply (list_elem_of_fmap_2 (λ v, mkOption v false)). }
    exists self. split; [done|]. split; [done|]. split; [done|]. split.
    { by rewrite Hvalues, <-(constructor_values (default_value :: options)). }
    split; [done|]. split; [done|]. exists i.
    unfold self0 in Hi, Hfirst, Hopts. cbn [sel_options] in Hi, Hfirst, Hopts.
    split; [|split; [|split; [done|]]].
    + rewrite list_lookup_fmap in Hi.
      destruct ((default_value :: options) !! i) as [x|]; [|done].
      injection Hi as <-. by rewrite <-Ho.
    + intros j Hlt Hj. apply (Hfirst j (mkOption v false) Hlt); [|done].
      by rewrite list_lookup_fmap, Hj.
    + rewrite Hopts. f_equal. by rewrite <-list_fmap_compose.
  - intros Hnotin. rewrite Select_set_value_find.
    assert (list_find (λ o, opt_value o = v) (sel_options self0) = None) as ->.
    { apply list_find_None, Forall_fmap, Forall_forall. intros x Hx. simpl.
      by intros ->. }
    simpl. f_equal. f_equal. f_equal.
    apply (constructor_values (default_value :: options)).
Qed.

Lemma Select_init_with_value_witness :
  (∃ self,
     Select_init (Some "site") "Site" ["a"; "b"] (Some "b") = Ok self ∧
     Select_value self = Some "b" ∧ selected_count self = 1 ∧
     opt_value <$> sel_options self = ["ANY"; "a"; "b"] ∧
     sel_name self = Some "site" ∧ sel_label_name self = "Site" ∧
     ∃ i, ["ANY"; "a"; "b"] !! i = Some "b" ∧ sel_value self = Some i) ∧
  Select_init (Some "site") "Site" ["a"; "b"] (Some "z")
  = Raise (ValueError (FailedToSelect "z" (Some "site") ["ANY"; "a"; "b"])).
Proof.
  split.
  - destruct (Select_init_with_value (Some "site") "Site" ["a"; "b"] "b") as [Hok _];
      [discriminate|].
    destruct Hok as (self & Hinit & Hget & Hcount & Hvalues & Hname & Hlabel
                     & i & Hi & _ & Hsel & _).
    { right. right. left. }
    exists self. repeat split; try done. by exists i.
  - apply (Select_init_with_value (Some "site") "Site" ["a"; "b"] "z"); [discriminate|].
    apply (bool_decide_unpack _). reflexivity.
Defined.

(** X5: [reset] clears the selection from any state, also one in which
    several flags are set: it returns normally, the getter then returns None,
    no flag is set and the option values are as before; a second reset
    changes nothing, and an assignment made before the reset (returned or
    raised) leaves no trace. *)
Theorem Select_reset_clears (self : Select) :
  ∃ self',
    Select_reset self = (Ok tt, self') ∧
    Select_value self' = None ∧ selected_count self' = 0 ∧
    opt_value <$> sel_options self' = opt_value <$> sel_options self ∧
    Select_reset self' = (Ok tt, self') ∧
    ∀ opt_val, Select_reset (Select_set_value opt_val self).2 = (Ok tt, self').
Proof.
  eexists. split; [apply Select_reset_eq|]. split; [done|]. split; [|split; [|split]].
  - unfold selected_count. simpl. by rewrite filter_unselected by apply unselect_unselected.
  - apply unselect_same_values.
  - rewrite Select_reset_eq. simpl. by rewrite <-list_fmap_compose.
  - intros [v|]; [|done]. rewrite Select_reset_eq, Select_set_value_find.
    destruct (list_find _ _) as [[j o]|]; simpl; f_equal.
    + f_equal. rewrite !unselect_values. f_equal.
      by rewrite select_values_alter, constructor_values.
    + f_equal. by rewrite <-list_fmap_compose.
Qed.

(** ** DateSelector: the derived label, and sequences of assignments *)

Lemma replace_char_length old new s :
  String.length (replace_char old new s) = String.length s.
Proof. induction s as [|c s IH]; simpl; [done|]. by rewrite IH. Qed.

Lemma replace_char_gone old new s :
  new ≠ old → old ∉ String.list_ascii_of_string (replace_char old new s).
Proof.
  intros Hne. induction s as [|c s IH]; simpl; [apply not_elem_of_nil|].
  apply not_elem_of_cons. split; [|done].
  destruct (Ascii.eqb_spec c old); congruence.
Qed.

(** X6: the label of a DateSelector is the one given when it is non-empty;
    when it is empty or None the label is the name with every underscore
    turned into a space (same length, no underscore left), and the
    constructor raises AttributeError if the name is None too. *)
Theorem DateSelector_init_label name label_name value today :
  (truthy label_name = true →
   ∃ self, DateSelector_init name label_name value today = Ok self ∧
           Some (ds_label_name self) = label_name ∧ ds_name self = name) ∧
  (truthy label_name = false → ∀ n, name = Some n →
   ∃ self, DateSelector_init name label_name value today = Ok self ∧
           ds_label_name self = replace_char "_" " " n ∧
           String.length (ds_label_name self) = String.length n ∧
           ("_"%char ∉ String.list_ascii_of_string (ds_label_name self)) ∧
           ds_name self = name) ∧
  (truthy label_name = false → name = None →
   DateSelector_init name label_name value today = Raise AttributeError).
Proof.
  unfold DateSelector_init. split; [|split].
  - destruct label_name as [l|]; [|done]. simpl. intros ->. by eexists.
  - intros Hfalsy n ->.
    assert (∃ self,
      (n ← str_of (Some n);
       Ok (mkDateSelector (Some n) (replace_char "_" " " n) (value or_else today)))
      = Ok self ∧ ds_label_name self = replace_char "_" " " n ∧
      String.length (ds_label_name self) = String.length n ∧
      ("_"%char ∉ String.list_ascii_of_string (ds_label_name self)) ∧
      ds_name self = Some n) as Hderived.
    { eexists. split; [reflexivity|]. simpl.
      split; [done|]. split; [apply replace_char_length|].
      split; [by apply replace_char_gone|done]. }
    destruct label_name as [l|]; [|done]. simpl in Hfalsy. by rewrite Hfalsy.
  - intros Hfalsy ->. destruct label_name as [l|]; [|done].
    simpl in Hfalsy. by rewrite Hfalsy.
Qed.

Lemma DateSelector_init_label_witness :
  (∃ self, DateSelector_init (Some "start_date") (Some "From") None "2026-11-03" = Ok self ∧
           Some (ds_label_name self) = Some "From" ∧ ds_name self = Some "start_date") ∧
  (∃ self, DateSelector_init (Some "start_date") (Some "") None "2026-11-03" = Ok self ∧
           ds_label_name self = "start date" ∧
           String.length (ds_label_name self) = 10 ∧
           ("_"%char ∉ String.list_ascii_of_string (ds_label_name self)) ∧
           ds_name self = Some "start_date") ∧
  DateSelector_init None None None "2026-11-03" = Raise AttributeError.
Proof.
  split; [|split].
  - destruct (DateSelector_init_label (Some "start_date") (Some "From") None "2026-11-03")
      as (Hgiven & _ & _).
    by apply Hgiven.
  - destruct (DateSelector_init_label (Some "start_date") (Some "") None "2026-11-03")
      as (_ & Hderived & _).
    exact (Hderived eq_refl "start_date" eq_refl).
  - destruct (DateSelector_init_label None None None "2026-11-03") as (_ & _ & Hnone).
    by apply Hnone.
Defined.

Lemma DateSelector_assign_all_snoc values v self :
  DateSelector_assign_all (values ++ [v]) self
  = (DateSelector_set_value v (DateSelector_assign_all values self)).2.
Proof. unfold DateSelector_assign_all. by rewrite foldl_app. Qed.

(** X7: after any sequence of assignments to a DateSelector, some of which
    may have raised, the stored value is the last of the assigned strings
    that parses, or the value held at the start when none does; None and
    non-parsing strings never change it, and name and label stay. *)
Theorem DateSelector_last_valid_wins (self : DateSelector) (values : list (option string)) :
  DateSelector_value (DateSelector_assign_all values self)
  = default (DateSelector_value self)
      (last (filter (λ s, strptime_ok s = true) (omap id values))) ∧
  ds_name (DateSelector_assign_all values self) = ds_name self ∧
  ds_label_name (DateSelector_assign_all values self) = ds_label_name self.
Proof.
  induction values as [|v values IH] using rev_ind; [done|].
  rewrite DateSelector_assign_all_snoc, omap_app, filter_app.
  destruct IH as (IHv & IHn & IHl). destruct v as [s|].
  - change (omap id [Some s]) with [s]. destruct (strptime_ok s) eqn:Hs.
    + rewrite DateSelector_set_value_parsed by done.
      rewrite filter_cons_True, filter_nil, last_snoc by done. done.
    + rewrite DateSelector_set_value_rejected by done.
      rewrite filter_cons_False, filter_nil, (right_id_L [] (++)) by congruence. done.
  - change (omap id [None]) with (@nil string).
    by rewrite filter_nil, (right_id_L [] (++)).
Qed.

(** ** FilterForm: reading, writing and what stays *)

Lemma with_fields_same (self : FilterForm) : with_fields (fields self) self = self.
Proof. by destruct self. Qed.




Lemma field_dict_Some_lookup (self : FilterForm) n i :
  field_dict self !! n = Some i →
  ∃ f, fields self !! i = Some f ∧ FormField_name f = n ∧
       ∀ j f', i < j → fields self !! j = Some f' → FormField_name f' ≠ n.
Proof. destruct self as [l a c r]. apply field_dict_Some. Qed.

Lemma names_field_or_not (self : FilterForm) k :
  names_field self k ∨ ¬ names_field self k.
Proof.
  destruct (field_dict self !! Some k) as [i|] eqn:Hd.
  - left. apply field_dict_Some_lookup in Hd as (f & Hi & Hname & _).
    exists f. split; [|done]. by eapply list_elem_of_lookup_2.
  - right. destruct self as [l a c r]. rewrite field_dict_None in Hd.
    intros (f & Hf & Hname). by eapply Hd.
Qed.

Lemma get_field_Ok (self : FilterForm) k i self' :
  get_field k self = (Ok i, self') ↔ field_dict self !! Some k = Some i ∧ self' = self.
Proof.
  unfold get_field, mbind, M_bind, get.
  destruct (field_dict self !! Some k) as [j|]; simpl.
  - unfold mret, M_ret. split.
    + by intros [= -> ->].
    + by intros [[= ->] ->].
  - unfold raise. split; [done|]. by intros [? _].
Qed.

(** The setters keep the name of the field. *)
Lemma FormField_set_value_name v f :
  FormField_name (FormField_set_value v f).2 = FormField_name f.
Proof.
  destruct f as [d|s], v as [x|]; try done; cbn [FormField_set_value].
  - unfold DateSelector_set_value. by destruct (strptime_ok x).
  - rewrite Select_set_value_find. by destruct (list_find _ _) as [[]|].
Qed.


Lemma setitem_at (self : FilterForm) k v i f :
  field_dict self !! Some k = Some i → fields self !! i = Some f →
  setitem k v self
  = ((FormField_set_value v f).1,
     with_fields (<[i := (FormField_set_value v f).2]> (fields self)) self).
Proof.
  intros Hd Hi. unfold setitem, get_field, mbind, M_bind, get. rewrite Hd. simpl.
  unfold on_field. rewrite Hi. by destruct (FormField_set_value v f).
Qed.

Lemma getitem_at (self : FilterForm) k i f :
  field_dict self !! Some k = Some i → fields self !! i = Some f →
  getitem k self = (Ok (FormField_value f), self).
Proof.
  intros Hd Hi. unfold getitem, get_field, mbind, M_bind, get. rewrite Hd. simpl.
  unfold on_field. rewrite Hi. simpl.
  by rewrite list_insert_id, with_fields_same.
Qed.

Lemma field_names_insert (self : FilterForm) i f f' :
  fields self !! i = Some f → FormField_name f' = FormField_name f →
  field_names (with_fields (<[i := f']> (fields self)) self) = field_names self.
Proof.
  intros Hi Hname. unfold field_names. simpl.
  rewrite list_fmap_insert, Hname. apply list_insert_id.
  by rewrite list_lookup_fmap, Hi.
Qed.

(** Whatever an assignment through a name does, it does to one field. *)
Lemma setitem_state (self : FilterForm) k v :
  (setitem k v self).2 = self ∨
  ∃ i f, field_dict self !! Some k = Some i ∧ fields self !! i = Some f ∧
         (setitem k v self).2
         = with_fields (<[i := (FormField_set_value v f).2]> (fields self)) self.
Proof.
  destruct (field_dict self !! Some k) as [i|] eqn:Hd.
  - right. destruct (field_dict_Some_lookup _ _ _ Hd) as (f & Hi & _).
    exists i, f. split; [done|]. split; [done|]. by rewrite (setitem_at _ _ _ i f).
  - left. unfold setitem, get_field, mbind, M_bind, get. by rewrite Hd.
Qed.

Lemma setitem_names (self : FilterForm) k v :
  field_names (setitem k v self).2 = field_names self.
Proof.
  destruct (setitem_state self k v) as [->|(i & f & _ & Hi & ->)]; [done|].
  eapply field_names_insert; [done|]. apply FormField_set_value_name.
Qed.

Lemma setitem_attributes (self : FilterForm) k v :
  action (setitem k v self).2 = action self ∧
  cgi_method (setitem k v self).2 = cgi_method self ∧
  request_method (setitem k v self).2 = request_method self.
Proof. by destruct (setitem_state self k v) as [->|(i & f & _ & _ & ->)]. Qed.

(** X8: reading through a name never changes the form: for a name that no
    field carries, [form[k]] raises KeyError naming it; otherwise it returns
    the value of the field carrying the name (the last one, should several
    carry it). *)
Theorem getitem_reads (self : FilterForm) (k : string) :
  (¬ names_field self k → getitem k self = (Raise (KeyError k), self)) ∧
  (names_field self k →
   ∃ i f, fields self !! i = Some f ∧ FormField_name f = Some k ∧
          (∀ j f', i < j → fields self !! j = Some f' → FormField_name f' ≠ Some k) ∧
          getitem k self = (Ok (FormField_value f), self)).
Proof.
  split.
  - intros Hd%field_dict_unknown. unfold getitem, get_field, mbind, M_bind, get.
    by rewrite Hd.
  - intros (i & f0 & Hd & _)%field_dict_known.
    destruct (field_dict_Some_lookup _ _ _ Hd) as (f & Hi & Hname & Hlast).
    exists i, f. repeat split; try done. by apply (getitem_at _ _ i).
Qed.

Lemma getitem_reads_witness :
  let date := DateField (mkDateSelector (Some "start_date") "start date" "2026-11-03") in
  let site := SelectField (mkSelect (Some "site") "Site"
                             [mkOption "ANY" false; mkOption "a" true] (Some 1)) in
  let self := mkFilterForm [date; site] "/dashboard/" "list-jobs" "GET" in
  getitem "unknown_field" self = (Raise (KeyError "unknown_field"), self) ∧
  ∃ i f, [date; site] !! i = Some f ∧ FormField_name f = Some "site" ∧
         getitem "site" self = (Ok (FormField_value f), self).
Proof.
  intros date site self. destruct (getitem_reads self "unknown_field") as [Hunknown _].
  destruct (getitem_reads self "site") as [_ Hknown]. split.
  - apply Hunknown. intros (f & Hf & Hname). simpl in Hf.
    apply elem_of_cons in Hf as [->|Hf]; [discriminate|].
    apply elem_of_cons in Hf as [->|Hf]; [discriminate|].
    by apply elem_of_nil in Hf.
  - destruct Hknown as (i & f & Hi & Hname & _ & Hget).
    + exists site. split; [simpl; right; left|reflexivity].
    + by exists i, f.
Defined.



(** X10: an assignment through a name touches at most the one field found
    under that name, whether it returns or raises: the names of all fields,
    their number and the attributes of the form stay, and so does every field
    at another position.  Either [get_field] finds a field, which then takes
    the state its own setter leaves while the outcome is that setter's, or
    it raises KeyError and so does the assignment, with the form exactly as
    it was. *)
Theorem setitem_frame (self : FilterForm) (k : string) (v : option string) :
  field_names (setitem k v self).2 = field_names self ∧
  length (fields (setitem k v self).2) = length (fields self) ∧
  action (setitem k v self).2 = action self ∧
  cgi_method (setitem k v self).2 = cgi_method self ∧
  request_method (setitem k v self).2 = request_method self ∧
  (∀ i, get_field k self = (Ok i, self) →
        ∀ j, j ≠ i → fields (setitem k v self).2 !! j = fields self !! j) ∧
  (∀ i, get_field k self = (Ok i, self) →
        ∃ f, fields self !! i = Some f ∧
             (setitem k v self).1 = (FormField_set_value v f).1 ∧
             fields (setitem k v self).2 !! i = Some (FormField_set_value v f).2) ∧
  (get_field k self = (Raise (KeyError k), self) →
   setitem k v self = (Raise (KeyError k), self)) ∧
  ((∃ i, get_field k self = (Ok i, self)) ∨
   get_field k self = (Raise (KeyError k), self)).
Proof.
  split; [apply setitem_names|]. split.
  { pose proof (setitem_names self k v) as Hn. apply (f_equal length) in Hn.
    unfold field_names in Hn. by rewrite !length_fmap in Hn. }
  destruct (setitem_attributes self k v) as (-> & -> & ->).
  split; [done|]. split; [done|]. split; [done|]. split; [|split; [|split]].
  - intros i [Hd _]%get_field_Ok j Hne.
    destruct (field_dict_Some_lookup _ _ _ Hd) as (f & Hi & _).
    rewrite (setitem_at _ _ _ i f) by done. simpl. by apply list_lookup_insert_ne.
  - intros i [Hd _]%get_field_Ok.
    destruct (field_dict_Some_lookup _ _ _ Hd) as (f & Hi & _).
    exists f. split; [done|]. rewrite (setitem_at _ _ _ i f) by done. simpl.
    split; [done|]. apply list_lookup_insert_eq. by eapply lookup_lt_Some.
  - unfold setitem, mbind, M_bind. by intros ->.
  - unfold get_field, mbind, M_bind, get.
    destruct (field_dict self !! Some k) as [i|]; [left; by exists i|by right].
Qed.

Lemma update_state (field_values : list (string * option string)) ignore self :
  field_names (update field_values ignore self).2 = field_names self ∧
  action (update field_values ignore self).2 = action self ∧
  cgi_method (update field_values ignore self).2 = cgi_method self ∧
  request_method (update field_values ignore self).2 = request_method self.
Proof.
  revert self. induction field_values as [|[k v] rest IH]; intros self; [done|].
  pose proof (setitem_names self k v) as Hn.
  destruct (setitem_attributes self k v) as (Ha & Hc & Hr).
  destruct (IH (setitem k v self).2) as (IHn & IHa & IHc & IHr).
  cbn [update]. unfold mbind, M_bind, try_except.
  destruct (setitem k v self) as [[[]|e] s1]; simpl in *.
  - by rewrite IHn, IHa, IHc, IHr.
  - destruct e as [info|key| |]; try done.
    destruct ignore; simpl; [|done]. by rewrite IHn, IHa, IHc, IHr.
Qed.

(** X11: a bulk update, whatever it is given and whether it returns or
    stops on an error, never adds, removes, renames or reorders fields, and
    never changes the action, the method name or the request method of the
    form. *)
Theorem update_keeps_shape (field_values : list (string * option string))
    (is_ignore_unknown_fields : bool) (self : FilterForm) :
  let self' := (update field_values is_ignore_unknown_fields self).2 in
  field_names self' = field_names self ∧
  length (fields self') = length (fields self) ∧
  action self' = action self ∧ cgi_method self' = cgi_method self ∧
  request_method self' = request_method self.
Proof.
  destruct (update_state field_values is_ignore_unknown_fields self)
    as (Hn & Ha & Hc & Hr).
  simpl. repeat split; try done.
  apply (f_equal length) in Hn. unfold field_names in Hn.
  by rewrite !length_fmap in Hn.
Qed.

Lemma setitem_frame_witness :
  let date := DateField (mkDateSelector (Some "start_date") "start date" "2026-11-03") in
  let site opts sel := SelectField (mkSelect (Some "site") "Site" opts sel) in
  let self := mkFilterForm [date; site [mkOption "ANY" true; mkOption "a" false] (Some 0)]
                "/dashboard/" "list-jobs" "GET" in
  fields (setitem "site" (Some "z") self).2 !! 0 = Some date ∧
  (∃ f, fields self !! 1 = Some f ∧
        (setitem "site" (Some "z") self).1 = (FormField_set_value (Some "z") f).1 ∧
        fields (setitem "site" (Some "z") self).2 !! 1
        = Some (FormField_set_value (Some "z") f).2) ∧
  setitem "unknown_field" (Some "z") self = (Raise (KeyError "unknown_field"), self).
Proof.
  intros date site self.
  destruct (setitem_frame self "site" (Some "z"))
    as (_ & _ & _ & _ & _ & Hothers & Hfound & _).
  destruct (setitem_frame self "unknown_field" (Some "z"))
    as (_ & _ & _ & _ & _ & _ & _ & Hunknown & _).
  split; [|split].
  - apply (Hothers 1); [reflexivity|lia].
  - apply (Hfound 1). reflexivity.
  - apply Hunknown. reflexivity.
Defined.

Lemma update_raises (field_values : list (string * option string)) self e self' :
  update field_values true self = (Raise e, self') → ∃ info, e = ValueError info.
Proof.
  revert self. induction field_values as [|[k v] rest IH]; intros self; [done|].
  destruct (names_field_or_not self k) as [Hk|Hk].
  - rewrite update_cons_known by done.
    destruct (setitem k v self) as [[[]|e0] s1] eqn:Hset; [apply IH|].
    intros [= <- _]. by eapply setitem_raises.
  - rewrite update_cons_unknown_ignored by done. apply IH.
Qed.

(** X12: with unknown fields ignored (the default) a bulk update never
    raises KeyError: the only failure it can end with is the ValueError of a
    field that rejected its value. *)
Theorem update_ignoring_raises_ValueError_only
    (field_values : list (string * option string)) (self self' : FilterForm) (e : exn) :
  update field_values true self = (Raise e, self') → ∃ info, e = ValueError info.
Proof. apply update_raises. Qed.

Lemma update_ignoring_raises_ValueError_only_witness :
  let date := DateField (mkDateSelector (Some "start_date") "start date" "2026-11-03") in
  let self := mkFilterForm [date] "/dashboard/" "list-jobs" "GET" in
  let field_values := [("site", Some "a"); ("start_date", Some "tomorrow"); ("x", None)] in
  update field_values true self
  = (Raise (ValueError (InvalidDateFormat "tomorrow" "%Y-%m-%d")), self) ∧
  ∃ info, ValueError (InvalidDateFormat "tomorrow" "%Y-%m-%d") = ValueError info.
Proof.
  intros date self field_values. split; [reflexivity|].
  apply (update_ignoring_raises_ValueError_only field_values self self).
  reflexivity.
Defined.

(** X13: updating with one list of pairs and then with another is updating
    with the two lists joined: the second part runs from the state the first
    left, and is not run at all when the first part raised. *)
Theorem update_app (values1 values2 : list (string * option string))
    (is_ignore_unknown_fields : bool) (self : FilterForm) :
  update (values1 ++ values2) is_ignore_unknown_fields self =
  match update values1 is_ignore_unknown_fields self with
  | (Ok _, self1) => update values2 is_ignore_unknown_fields self1
  | (Raise e, self1) => (Raise e, self1)
  end.
Proof.
  revert self. induction values1 as [|[k v] rest IH]; intros self; [done|].
  rewrite <-app_comm_cons. cbn [update]. unfold mbind, M_bind.
  destruct (try_except _ _ self) as [[[]|e] s1]; [apply IH|done].
Qed.

Lemma setitem_None (self : FilterForm) k :
  names_field self k → setitem k None self = (Ok tt, self).
Proof.
  intros (i & f & Hd & Hi & _)%field_dict_known.
  rewrite (setitem_at _ _ _ i f) by done.
  assert (FormField_set_value None f = (Ok tt, f)) as -> by (by destruct f).
  simpl. by rewrite list_insert_id, with_fields_same.
Qed.

(** X14: None is never assigned: a bulk update all of whose values are
    None (what [parse_cgi_value] gives for an absent, empty or "ANY"
    parameter) returns normally and leaves the form exactly as it was,
    whichever names it mentions, unknown fields being ignored. *)
Theorem update_None_values (field_values : list (string * option string))
    (self : FilterForm) :
  (∀ kv, kv ∈ field_values → kv.2 = None) →
  update field_values true self = (Ok tt, self).
Proof.
  induction field_values as [|[k v] rest IH]; intros Hnone; [done|].
  assert (v = None) as -> by (apply (Hnone (k, v)); left).
  assert (update rest true self = (Ok tt, self)) as Hrest.
  { apply IH. intros kv Hkv. apply Hnone. by right. }
  destruct (names_field_or_not self k) as [Hk|Hk].
  - by rewrite update_cons_known, setitem_None.
  - by rewrite update_cons_unknown_ignored.
Qed.

Lemma update_None_values_witness :
  let date := DateField (mkDateSelector (Some "start_date") "start date" "2026-11-03") in
  let site := SelectField (mkSelect (Some "site") "Site"
                             [mkOption "ANY" false; mkOption "a" true] (Some 1)) in
  let self := mkFilterForm [date; site] "/dashboard/" "list-jobs" "GET" in
  update [("site", None); ("start_date", None); ("unknown_field", None)] true self
  = (Ok tt, self).
Proof.
  intros date site self. apply update_None_values.
  intros kv Hkv. simpl in Hkv.
  apply elem_of_cons in Hkv as [->|Hkv]; [done|].
  apply elem_of_cons in Hkv as [->|Hkv]; [done|].
  apply elem_of_cons in Hkv as [->|Hkv]; [done|].
  by apply elem_of_nil in Hkv.
Defined.

(** X15: a rejected assignment through a name: when the field found is a
    DateSelector and the string does not parse, ValueError is raised and the
    whole form is as before; when it is a Select none of whose options
    carries the value, ValueError is raised and that Select is left in the
    form with no selection (its getter returns None), every other field
    being as before. *)
Theorem setitem_rejected (self : FilterForm) (k v : string) (i : nat) :
  get_field k self = (Ok i, self) →
  (∀ d, fields self !! i = Some (DateField d) → strptime_ok v = false →
   setitem k (Some v) self = (Raise (ValueError (InvalidDateFormat v date_format)), self)) ∧
  (∀ s, fields self !! i = Some (SelectField s) →
   (∀ o, o ∈ sel_options s → opt_value o ≠ v) →
   ∃ self' s',
     setitem k (Some v) self
     = (Raise (ValueError (FailedToSelect v (sel_name s) (opt_value <$> sel_options s))),
        self') ∧
     fields self' !! i = Some (SelectField s') ∧
     Select_value s' = None ∧ Forall unselected (sel_options s') ∧
     ∀ j, j ≠ i → fields self' !! j = fields self !! j).
Proof.
  intros [Hd _]%get_field_Ok. split.
  - intros d Hi Hv. rewrite (setitem_at _ _ _ i (DateField d)) by done.
    cbn [FormField_set_value]. rewrite DateSelector_set_value_rejected by done. simpl.
    by rewrite list_insert_id, with_fields_same.
  - intros s Hi Hnone. rewrite (setitem_at _ _ _ i (SelectField s)) by done.
    cbn [FormField_set_value]. rewrite Select_set_value_find.
    assert (list_find (λ o, opt_value o = v) (sel_options s) = None) as ->.
    { apply list_find_None, Forall_forall. exact Hnone. }
    simpl. do 2 eexists. split; [done|]. simpl. split.
    { apply list_lookup_insert_eq. by eapply lookup_lt_Some. }
    split; [done|]. split; [apply unselect_unselected|].
    intros j Hne. by apply list_lookup_insert_ne.
Qed.

Lemma setitem_rejected_witness :
  let date := DateField (mkDateSelector (Some "start_date") "start date" "2026-11-03") in
  let site opts sel := SelectField (mkSelect (Some "site") "Site" opts sel) in
  let form fs := mkFilterForm fs "/dashboard/" "list-jobs" "GET" in
  let self := form [date; site [mkOption "ANY" false; mkOption "a" true] (Some 1)] in
  setitem "start_date" (Some "tomorrow") self
  = (Raise (ValueError (InvalidDateFormat "tomorrow" "%Y-%m-%d")), self) ∧
  ∃ self' s',
    setitem "site" (Some "z") self
    = (Raise (ValueError (FailedToSelect "z" (Some "site") ["ANY"; "a"])), self') ∧
    fields self' !! 1 = Some (SelectField s') ∧ Select_value s' = None.
Proof.
  intros date site form self. split.
  - destruct (setitem_rejected self "start_date" "tomorrow" 0 eq_refl) as [Hdate _].
    by eapply Hdate.
  - destruct (setitem_rejected self "site" "z" 1 eq_refl) as [_ Hsite].
    destruct (Hsite (mkSelect (Some "site") "Site"
                       [mkOption "ANY" false; mkOption "a" true] (Some 1)) eq_refl)
      as (self' & s' & Hset & Hi & Hvalue & _).
    + intros o Ho. simpl in Ho.
      apply elem_of_cons in Ho as [->|Ho]; [discriminate|].
      apply elem_of_cons in Ho as [->|Ho]; [discriminate|].
      by apply elem_of_nil in Ho.
    + by exists self', s'.
Defined.

Lemma set_field_state (self : FilterForm) (field : FormField) :
  (set_field field self).2 = self ∨
  ∃ i f, fields self !! i = Some f ∧ FormField_name f = FormField_name field ∧
         (set_field field self).2 = with_fields (<[i := field]> (fields self)) self.
Proof.
  unfold set_field. destruct (FormField_name field) as [name|] eqn:Hname; [|by left].
  unfold mbind, M_bind, get. rewrite set_field_scan_find.
  destruct (list_find _ _) as [[i f]|] eqn:Hfind; [|by left].
  apply list_find_Some in Hfind as (Hi & Hf & _). right. exists i, f.
  rewrite Nat.add_0_l. split; [done|]. split; [congruence|done].
Qed.

(** X16: [set_field] never renames: whether it replaces a field or raises,
    the names of the fields, in order, are what they were, so names that were
    distinct stay distinct; the number of fields and the attributes of the
    form stay too. *)
Theorem set_field_keeps_names (self : FilterForm) (field : FormField) :
  let self' := (set_field field self).2 in
  field_names self' = field_names self ∧
  (NoDup (field_names self) → NoDup (field_names self')) ∧
  length (fields self') = length (fields self) ∧
  action self' = action self ∧ cgi_method self' = cgi_method self ∧
  request_method self' = request_method self.
Proof.
  simpl. destruct (set_field_state self field) as [->|(i & f & Hi & Hname & ->)]; [done|].
  assert (field_names (with_fields (<[i:=field]> (fields self)) self)
          = field_names self) as Hn by (by eapply field_names_insert).
  rewrite Hn. repeat split; try done. simpl. apply length_insert.
Qed.

Lemma set_field_keeps_names_witness :
  let date value := DateField (mkDateSelector (Some "start_date") "start date" value) in
  let site := SelectField (mkSelect (Some "site") "Site" [mkOption "ANY" true] (Some 0)) in
  let self := mkFilterForm [site; date "2026-11-03"] "/dashboard/" "list-jobs" "GET" in
  NoDup (field_names (set_field (date "2024-02-29") self).2).
Proof.
  intros date site self.
  destruct (set_field_keeps_names self (date "2024-02-29")) as (_ & Hnodup & _).
  apply Hnodup. apply (bool_decide_unpack _). reflexivity.
Defined.

(** X17: in a form whose field names are distinct, a field put in place by
    [set_field] is the field found under its name afterwards: [get_field]
    returns its position and [form[name]] reads its value. *)
Theorem set_field_then_get_field (self : FilterForm) (field : FormField) (name : string) :
  NoDup (field_names self) →
  FormField_name field = Some name → names_field self name →
  ∃ i self',
    set_field field self = (Ok tt, self') ∧
    get_field name self' = (Ok i, self') ∧
    fields self' !! i = Some field ∧
    getitem name self' = (Ok (FormField_value field), self').
Proof.
  intros Hnodup Hname Hknown.
  destruct (set_field_known _ _ _ Hname Hknown) as (i & f & Hi & Hf & _ & Hset).
  set (self' := with_fields (<[i := field]> (fields self)) self) in *.
  assert (fields self' !! i = Some field) as Hi'.
  { simpl. apply list_lookup_insert_eq. by eapply lookup_lt_Some. }
  assert (field_names self' = field_names self) as Hnames.
  { eapply field_names_insert; [done|]. congruence. }
  assert (field_dict self' !! Some name = Some i) as Hd.
  { destruct (field_dict_known self' name) as (i' & f' & Hd & Hi'' & Hf').
    { exists field. split; [|done]. by eapply list_elem_of_lookup_2. }
    rewrite Hd. f_equal. rewrite <-Hnames in Hnodup.
    apply (NoDup_lookup _ i' i (Some name) Hnodup); unfold field_names;
      rewrite list_lookup_fmap.
    - by rewrite Hi'', <-Hf'.
    - by rewrite Hi', <-Hname. }
  exists i, self'. split; [done|]. split; [by apply get_field_Ok|].
  split; [done|]. by apply (getitem_at _ _ i).
Qed.

Lemma set_field_then_get_field_witness :
  let date value := DateField (mkDateSelector (Some "start_date") "start date" value) in
  let site := SelectField (mkSelect (Some "site") "Site" [mkOption "ANY" true] (Some 0)) in
  let self := mkFilterForm [site; date "2026-11-03"] "/dashboard/" "list-jobs" "GET" in
  ∃ i self',
    set_field (date "2024-02-29") self = (Ok tt, self') ∧
    get_field "start_date" self' = (Ok i, self') ∧
    fields self' !! i = Some (date "2024-02-29") ∧
    getitem "start_date" self' = (Ok (Some "2024-02-29"), self').
Proof.
  intros date site self.
  apply (set_field_then_get_field self (date "2024-02-29") "start_date").
  - apply (bool_decide_unpack _). reflexivity.
  - reflexivity.
  - exists (date "2026-11-03"). split; [simpl; right; left|reflexivity].
Defined.

(** ** The utilities: what the results never hold, and what they do not
    depend on *)

(** X18: [parse_cgi_value] never hands on an empty string or the default
    value: a key mapped to a string is one of the given keys, and the string
    is the non-empty entry of [cgiValues] under that key, different from
    [default_value]. *)
Theorem parse_cgi_value_passes_filters_only (cgiValues : gmap string string)
    (keys : list string) (default_value : string)
    (result : gmap string (option string)) (key v : string) :
  parse_cgi_value (Instance cgiValues) (Instance keys) default_value = Ok result →
  result !! key = Some (Some v) →
  key ∈ keys ∧ cgiValues !! key = Some v ∧ v ≠ "" ∧ v ≠ default_value.
Proof.
  rewrite parse_cgi_value_Ok. intros [= <-]. rewrite parse_cgi_value_loop.
  destruct (decide (key ∈ keys)) as [Hin|_]; [|by rewrite lookup_empty].
  unfold normalized. destruct (cgiValues !! key) as [x|]; [|done].
  destruct (decide _) as [[Hne Hdef]|_]; [|done]. by intros [= ->].
Qed.

Lemma parse_cgi_value_passes_filters_only_witness :
  "site" ∈ ["site"; "state"] ∧
  ({["site" := "RAL"; "state" := "ANY"]} : gmap string string) !! "site" = Some "RAL" ∧
  "RAL" ≠ "" ∧ "RAL" ≠ "ANY".
Proof.
  apply (parse_cgi_value_passes_filters_only
           {["site" := "RAL"; "state" := "ANY"]} ["site"; "state"] "ANY"
           {["site" := Some "RAL"; "state" := None]} "site" "RAL").
  - by vm_compute.
  - by vm_compute.
Defined.

(** X19: the result of [parse_cgi_value] depends on the keys as a set: two
    lists of keys with the same members, in any order and with any
    repetition, give the same dictionary. *)
Theorem parse_cgi_value_keys_as_set (cgiValues : gmap string string)
    (keys1 keys2 : list string) (default_value : string) :
  (∀ key, key ∈ keys1 ↔ key ∈ keys2) →
  parse_cgi_value (Instance cgiValues) (Instance keys1) default_value
  = parse_cgi_value (Instance cgiValues) (Instance keys2) default_value.
Proof.
  intros Hsame. rewrite !parse_cgi_value_Ok. f_equal. apply map_eq. intros key.
  rewrite !parse_cgi_value_loop.
  destruct (decide (key ∈ keys1)) as [H1|H1], (decide (key ∈ keys2)) as [H2|H2];
    try done; by apply Hsame in H1 || apply Hsame in H2.
Qed.

Lemma parse_cgi_value_keys_as_set_witness :
  parse_cgi_value (Instance {["site" := "RAL"]}) (Instance ["site"; "state"; "site"]) "ANY"
  = parse_cgi_value (Instance {["site" := "RAL"]}) (Instance ["state"; "site"]) "ANY".
Proof.
  apply parse_cgi_value_keys_as_set. intros key.
  rewrite !elem_of_cons, !elem_of_nil. tauto.
Defined.

(** What the loop over well-shaped rows leaves in [unique_values] is fixed
    by which rows there are. *)
Lemma extract_rows_loop_as_set first1 first2 (rows1 rows2 : list (gmap string pyval)) :
  rows1 ≠ [] → rows2 ≠ [] → dom first1 = dom first2 →
  (∀ r, r ∈ rows1 → dom r = dom first1) →
  (∀ r, r ∈ rows1 ↔ r ∈ rows2) →
  for_each (extract_row first1) ∅ (Instance <$> rows1)
  = for_each (extract_row first2) ∅ (Instance <$> rows2).
Proof.
  intros Hne1 Hne2 Hdom Hshape Hsame.
  destruct (extract_rows_loop first1 rows1 ∅) as (uv1 & -> & Hd1 & He1).
  { by apply Forall_forall. }
  destruct (extract_rows_loop first2 rows2 ∅) as (uv2 & -> & Hd2 & He2).
  { apply Forall_forall. intros r Hr. rewrite <-Hdom. by apply Hshape, Hsame. }
  f_equal. rewrite dom_empty_L, (left_id_L ∅ (∪)) in Hd1, Hd2.
  destruct rows1 as [|r1 rows1]; [done|]. destruct rows2 as [|r2 rows2]; [done|].
  apply map_eq. intros k.
  destruct (uv1 !! k) as [v1|] eqn:Hk1, (uv2 !! k) as [v2|] eqn:Hk2.
  - f_equal. apply set_eq. intros x.
    specialize (He1 k x). specialize (He2 k x).
    rewrite Hk1, lookup_empty in He1. rewrite Hk2, lookup_empty in He2.
    simpl in He1, He2. rewrite He1, He2. setoid_rewrite Hsame. done.
  - apply elem_of_dom_2 in Hk1. apply not_elem_of_dom in Hk2. congruence.
  - apply elem_of_dom_2 in Hk2. apply not_elem_of_dom in Hk1. congruence.
  - done.
Qed.

(** X20: on rows that all have the keys of the first one, the outcome of
    [extract_rows_unique_value] (the dictionary returned, or the TypeError
    of a column that cannot be sorted) depends on the rows as a set: their
    order, and how often a row is repeated, make no difference. *)
Theorem extract_rows_unique_value_rows_as_set
    (first1 first2 : gmap string pyval) (rest1 rest2 : list (gmap string pyval)) :
  (∀ r, r ∈ rest1 → dom r = dom first1) →
  (∀ r, r ∈ first1 :: rest1 ↔ r ∈ first2 :: rest2) →
  extract_rows_unique_value (Instance (Instance <$> first1 :: rest1))
  = extract_rows_unique_value (Instance (Instance <$> first2 :: rest2)).
Proof.
  intros Hshape Hsame.
  assert (∀ r, r ∈ first1 :: rest1 → dom r = dom first1) as Hshape1.
  { intros r [->|Hr]%elem_of_cons; [done|by apply Hshape]. }
  assert (dom first1 = dom first2) as Hdom.
  { symmetry. apply Hshape1, Hsame. left. }
  rewrite !fmap_cons. unfold extract_rows_unique_value. rewrite <-!fmap_cons.
  by rewrite (extract_rows_loop_as_set first1 first2 _ (first2 :: rest2)).
Qed.

Lemma extract_rows_unique_value_rows_as_set_witness :
  let r1 : gmap string pyval := {["a" := PyInt 2; "b" := PyStr "x"]} in
  let r2 : gmap string pyval := {["a" := PyInt 1; "b" := PyStr "y"]} in
  extract_rows_unique_value (Instance (Instance <$> [r1; r2; r1]))
  = extract_rows_unique_value (Instance (Instance <$> [r2; r1])).
Proof.
  intros r1 r2. apply extract_rows_unique_value_rows_as_set.
  - apply Forall_forall. apply (bool_decide_unpack _). by vm_compute.
  - intros r. rewrite !elem_of_cons, !elem_of_nil. tauto.
Defined.

(** ** Rendering *)

Lemma String_app_assoc (s1 s2 s3 : string) :
  (s1 +:+ s2) +:+ s3 = s1 +:+ (s2 +:+ s3).
Proof.
  induction s1 as [|c s1 IH]; [done|].
  change (String c ((s1 +:+ s2) +:+ s3) = String c (s1 +:+ (s2 +:+ s3))).
  by rewrite IH.
Qed.

Lemma String_app_nil_r (s : string) : s +:+ "" = s.
Proof.
  induction s as [|c s IH]; [done|].
  change (String c (s +:+ "") = String c s). by rewrite IH.
Qed.

(** A loop that appends to a string builds the start followed by the
    pieces in order. *)
Lemma foldl_append {A} (piece : A → string) (l : list A) (start : string) :
  foldl (λ html x, html +:+ piece x) start l
  = start +:+ concat_strings (piece <$> l).
Proof.
  revert start. induction l as [|x l IH]; intros start; simpl.
  - by rewrite String_app_nil_r.
  - by rewrite IH, String_app_assoc.
Qed.

(** X21: the markup of a Select is its opening tag carrying the name,
    then the markup of every option in list order, then the closing tag; the
    selected reference plays no part, only the flags do. *)
Theorem Select_render_in_order (self : Select) :
  Select_render self
  = "<select name='" +:+ fstr (sel_name self) +:+ "'>"
    +:+ concat_strings (Option_render <$> sel_options self) +:+ "</select>".
Proof.
  unfold Select_render. rewrite foldl_append. by rewrite !String_app_assoc.
Qed.

(** X22: the markup of a form is the opening tag with action and request
    method, the hidden input carrying the method name, then each field in
    the order of the stored list, as its label name, a colon and its own
    markup wrapped in a label element, then the submit button and the
    closing tag. *)
Theorem FilterForm_render_in_order (self : FilterForm) :
  FilterForm_render self
  = "<form action='" +:+ action self +:+ "' method='" +:+ request_method self +:+ "'>"
    +:+ "<input type='hidden' name='method' value='" +:+ cgi_method self +:+ "'>"
    +:+ concat_strings (labelled <$> fields self)
    +:+ render_submit_button +:+ "</form>".
Proof.
  unfold FilterForm_render. cbv zeta.
  rewrite (foldl_append labelled). by rewrite !String_app_assoc.
Qed.

(** X23: the markup of an option shows its flag: whatever its value, an
    option renders differently selected and unselected. *)
Theorem Option_render_shows_flag (v : string) :
  Option_render (mkOption v true) ≠ Option_render (mkOption v false).
Proof.
  unfold Option_render. simpl.
  destruct (String.eqb v default_value); intros [= H];
    rewrite ?String_app_assoc in H; apply (inj (String.app v)) in H;
    simpl in H; discriminate.
Qed.
